(** * ParkerGV6: the Parker Gemini GV6 servo motor controller driver

    A shallow embedding of [automate/instruments/parker.py] and the
    properties of its command encoding, reply parsing and unit
    conversion.

    The driver is a thin layer over a serial connection.  Every method
    either writes command texts to the connection or writes a query and
    parses the reply.  The embedding keeps:
    - Python [str] as [string], with the control characters written as
      [ascii] codes;
    - Python [int] as [Z] and Python [float] as the binary64 [float] of
      the standard library;
    - the [re] patterns as terms of a small regular-expression syntax run
      by a backtracking matcher;
    - the connection as an explicit world (texts written so far, replies
      still to come, seconds slept), threaded through a state monad in
      which a raised exception keeps the effects that happened before
      it. *)

From Stdlib Require Import ZArith String Ascii List Bool Lia Floats.
Import ListNotations.

Set Warnings "-inexact-float".

Open Scope string_scope.
Open Scope Z_scope.

(** ** Characters and strings *)

(** ["\r"] and ["\n"] of the Python source. *)
Definition CR : ascii := "013"%char.
Definition LF : ascii := "010"%char.

Definition str1 (c : ascii) : string := String c EmptyString.

Definition is_digit (c : ascii) : bool :=
  let n := nat_of_ascii c in (48 <=? n)%nat && (n <=? 57)%nat.

Definition is_upper (c : ascii) : bool :=
  let n := nat_of_ascii c in (65 <=? n)%nat && (n <=? 90)%nat.

Fixpoint forallb_string (p : ascii -> bool) (s : string) : bool :=
  match s with
  | EmptyString => true
  | String c s' => p c && forallb_string p s'
  end.

Fixpoint rev_onto (s acc : string) : string :=
  match s with
  | EmptyString => acc
  | String c s' => rev_onto s' (String c acc)
  end.

Definition rev_string (s : string) : string := rev_onto s "".

(** Whether the text begins with a decimal digit. *)
Definition starts_with_digit (s : string) : bool :=
  match s with
  | EmptyString => false
  | String c _ => is_digit c
  end.

(** ** Python's [str(int)] and [int(str)] *)

Definition digit_char (d : Z) : ascii := ascii_of_nat (48 + Z.to_nat d).

Fixpoint digits_onto (fuel : nat) (n : Z) (acc : string) : string :=
  match fuel with
  | O => acc
  | S fuel' =>
      let acc' := String (digit_char (n mod 10)) acc in
      if n <? 10 then acc' else digits_onto fuel' (n / 10) acc'
  end.

Definition str_nat (n : Z) : string :=
  digits_onto (S (Z.to_nat (Z.log2 n))) n "".

(** [str(z)], also what ["%d" % z] prints. *)
Definition str_int (z : Z) : string :=
  if z <? 0 then String "-" (str_nat (- z)) else str_nat z.

Definition digit_val (c : ascii) : Z := Z.of_nat (nat_of_ascii c) - 48.

Fixpoint digits_value (acc : Z) (s : string) : Z :=
  match s with
  | EmptyString => acc
  | String c s' => digits_value (10 * acc + digit_val c) s'
  end.

Definition nat_of_digits (s : string) : option Z :=
  match s with
  | EmptyString => None
  | _ => if forallb_string is_digit s then Some (digits_value 0 s) else None
  end.

(** [int(s)] on a text: an optional sign and at least one digit; [None]
    stands for the [ValueError] Python raises on anything else. *)
Definition int_of_str (s : string) : option Z :=
  match s with
  | EmptyString => None
  | String c s' =>
      if Ascii.eqb c "-" then option_map Z.opp (nat_of_digits s')
      else if Ascii.eqb c "+" then nat_of_digits s'
      else nat_of_digits s
  end.

(** ** Regular expressions

    The fragment of Python's [re] syntax the driver uses, and a
    backtracking matcher with Python's priorities: alternatives left to
    right, [?] and [+] greedy. *)

Inductive regex : Type :=
| Chr (c : ascii)            (* a literal character *)
| Digit                      (* \d *)
| Seq (r1 r2 : regex)        (* r1 r2 *)
| Alt (r1 r2 : regex)        (* r1|r2 *)
| Opt (r : regex)            (* r? *)
| Plus (r : regex)           (* r+ *)
| LookBehind (w : string).   (* (?<=w) *)

Section Matcher.

Context {R : Type}.

(** A continuation receives the text matched so far, last character
    first, and the text still ahead. *)
Definition cont : Type := string -> string -> option R.

Definition or_else (a : option R) (b : option R) : option R :=
  match a with
  | Some x => Some x
  | None => b
  end.

Definition match_char (p : ascii -> bool) (k : cont) : cont :=
  fun m s =>
    match s with
    | EmptyString => None
    | String c s' => if p c then k (String c m) s' else None
    end.

(** One or more repetitions of [step], as many as possible first. *)
Fixpoint plus_loop (step : cont -> cont) (k : cont) (fuel : nat) : cont :=
  fun m s =>
    match fuel with
    | O => None
    | S fuel' =>
        step (fun m' s' => or_else (plus_loop step k fuel' m' s') (k m' s')) m s
    end.

(** [before] is the text that precedes the start of the match, last
    character first; a look-behind reads it together with the text
    matched so far. *)
Fixpoint rmatch (before : string) (r : regex) (k : cont) {struct r} : cont :=
  match r with
  | Chr c => match_char (Ascii.eqb c) k
  | Digit => match_char is_digit k
  | Seq r1 r2 => rmatch before r1 (rmatch before r2 k)
  | Alt r1 r2 => fun m s => or_else (rmatch before r1 k m s) (rmatch before r2 k m s)
  | Opt r1 => fun m s => or_else (rmatch before r1 k m s) (k m s)
  | Plus r1 => fun m s => plus_loop (rmatch before r1) k (S (String.length s)) m s
  | LookBehind w =>
      fun m s => if String.prefix (rev_string w) (m ++ before) then k m s else None
  end.

End Matcher.

(** A match at the current position: the matched text and what follows. *)
Definition match_here (before : string) (r : regex) (s : string)
  : option (string * string) :=
  rmatch before r (fun m s' => Some (rev_string m, s')) "" s.

(** [re.search(r, s)]: the leftmost match; [group(0)] of the result. *)
Fixpoint search_from (r : regex) (before s : string) : option string :=
  match match_here before r s with
  | Some (matched, _) => Some matched
  | None =>
      match s with
      | EmptyString => None
      | String c s' => search_from r (String c before) s'
      end
  end.

Definition re_search (r : regex) (s : string) : option string :=
  search_from r "" s.

(** [re.sub(r, repl, s)] for a pattern that matches no empty text: every
    match, leftmost first and not overlapping, is replaced by [repl].
    [skip] counts the characters of the current match still to pass. *)
Fixpoint sub_from (r : regex) (repl : string) (before s : string) (skip : nat)
  : string :=
  match s with
  | EmptyString => ""
  | String c s' =>
      match skip with
      | S n => sub_from r repl (String c before) s' n
      | O =>
          match match_here before r s with
          | Some (String _ rest, _) =>
              repl ++ sub_from r repl (String c before) s' (String.length rest)
          | _ => String c (sub_from r repl (String c before) s' 0)
          end
      end
  end.

Definition re_sub (r : regex) (repl s : string) : string :=
  sub_from r repl "" s 0.

(** [s.split(sep)] for a separator of at least one character. *)
Fixpoint split_from (sep : string) (cur s : string) (skip : nat) : list string :=
  match s with
  | EmptyString => [rev_string cur]
  | String c s' =>
      match skip with
      | S n => split_from sep cur s' n
      | O =>
          if String.prefix sep s
          then rev_string cur :: split_from sep "" s' (String.length sep - 1)
          else split_from sep (String c cur) s' 0
      end
  end.

Definition split (sep s : string) : list string := split_from sep "" s 0.

(** ** The patterns of the driver *)

(** [r'(?<=TPE)-?\d+'] *)
Definition TPE_pattern : regex :=
  Seq (LookBehind "TPE") (Seq (Opt (Chr "-")) (Plus Digit)).

(** [r'(?<=TPER)-?\d+'] *)
Definition TPER_pattern : regex :=
  Seq (LookBehind "TPER") (Seq (Opt (Chr "-")) (Plus Digit)).

(** [r'\r\n\n(>|\?)? '] *)
Definition prompt_pattern : regex :=
  Seq (Chr CR) (Seq (Chr LF) (Seq (Chr LF)
    (Seq (Opt (Alt (Chr ">") (Chr "?"))) (Chr " ")))).

(** ** Exceptions and results *)

Inductive exn : Type :=
| AttributeError
| ValueError
| OverflowError.

Inductive outcome (A : Type) : Type :=
| Returned (a : A)
| Raised (e : exn).

Arguments Returned {A} a.
Arguments Raised {A} e.

(** ** Python numbers *)

(** The binary64 value [(-1)^s * m * 2^e] cut to an integer toward zero. *)
Definition truncate (s : bool) (m : positive) (e : Z) : Z :=
  let a := if 0 <=? e then Zpos m * 2 ^ e else Zpos m / 2 ^ (- e) in
  if s then - a else a.

(** [int(x)] on a float. *)
Definition int_of_float (x : float) : outcome Z :=
  match Prim2SF x with
  | S754_nan => Raised ValueError
  | S754_infinity _ => Raised OverflowError
  | S754_zero _ => Returned 0
  | S754_finite s m e => Returned (truncate s m e)
  end.

(** Neither an infinity nor a NaN. *)
Definition finite_float (x : float) : bool :=
  match Prim2SF x with
  | S754_nan | S754_infinity _ => false
  | _ => true
  end.

(** [float(z)] on an int: the nearest binary64 value, ties to even; an
    int beyond the range of the floats raises [OverflowError]. *)
Definition float_of_int (z : Z) : outcome float :=
  let x := SF2Prim (binary_normalize prec emax z 0 false) in
  if finite_float x then Returned x else Raised OverflowError.

(** [round(x)] on a float: the nearest integer, ties to even. *)
Definition round_float (x : float) : outcome Z :=
  match Prim2SF x with
  | S754_nan => Raised ValueError
  | S754_infinity _ => Raised OverflowError
  | S754_zero _ => Returned 0
  | S754_finite s m e =>
      let a :=
        if 0 <=? e then Zpos m * 2 ^ e
        else
          let d := 2 ^ (- e) in
          let q := Zpos m / d in
          let r := Zpos m mod d in
          match 2 * r ?= d with
          | Lt => q
          | Gt => q + 1
          | Eq => if Z.even q then q else q + 1
          end in
      Returned (if s then - a else a)
  end.

(** [x ** -1]: the reciprocal, taken correctly rounded. *)
Definition pow_neg1 (x : float) : float := (1 / x)%float.

(** A numeric argument as a caller can pass it. *)
Inductive number : Type :=
| PyInt (z : Z)
| PyFloat (x : float).

(** [int(n)] *)
Definition int_of_number (n : number) : outcome Z :=
  match n with
  | PyInt z => Returned z
  | PyFloat x => int_of_float x
  end.

(** [float(n)] *)
Definition float_of_number (n : number) : outcome float :=
  match n with
  | PyInt z => float_of_int z
  | PyFloat x => Returned x
  end.

(** The characters of a decimal numeral, exponent notation included. *)
Definition is_decimal_char (c : ascii) : bool :=
  is_digit c || Ascii.eqb c "." || Ascii.eqb c "-" || Ascii.eqb c "+"
  || Ascii.eqb c "e".

Section FloatText.

(** The digits Python prints for a finite float that is not a small
    whole number.  They come from the interpreter's float formatting
    and are left open here; whatever they are, they form a decimal
    numeral. *)
Variable float_digits : float -> string.

(** [str(x)] on a float.  A whole number below [10^12] in magnitude is
    printed as its integer digits followed by [.0]. *)
Definition str_float (x : float) : string :=
  match Prim2SF x with
  | S754_nan => "nan"
  | S754_infinity s => if s then "-inf" else "inf"
  | S754_zero s => if s then "-0.0" else "0.0"
  | S754_finite s m e =>
      let whole := if 0 <=? e then true else Zpos m mod 2 ^ (- e) =? 0 in
      let a := Z.abs (truncate s m e) in
      if whole && (a <? 10 ^ 12)
      then (if s then "-" else "") ++ str_nat a ++ ".0"
      else float_digits x
  end.

End FloatText.

(** ** The connection and the effects of a call *)

(** The serial connection as the driver sees it: how it was opened, the
    texts written to it so far (oldest first), the replies still to
    come (one list of lines for each [readlines()]), and the seconds
    spent in [sleep]. *)
Record world : Type := mkWorld {
  port : string;
  baudrate : Z;
  timeout : float;
  written : list string;
  incoming : list (list string);
  slept : Z
}.

(** A call runs in a world and returns or raises; either way the world
    keeps what was done up to that point. *)
Definition M (A : Type) : Type := world -> outcome A * world.

Definition ret {A : Type} (a : A) : M A := fun w => (Returned a, w).

Definition raise {A : Type} (e : exn) : M A := fun w => (Raised e, w).

Definition bind {A B : Type} (c : M A) (k : A -> M B) : M B :=
  fun w =>
    match c w with
    | (Returned a, w') => k a w'
    | (Raised e, w') => (Raised e, w')
    end.

Definition lift {A : Type} (r : outcome A) : M A := fun w => (r, w).

Declare Scope py_scope.
Delimit Scope py_scope with py.
Notation "x <- c ;; k" := (bind c (fun x => k))
  (at level 61, c at next level, right associativity) : py_scope.
Notation "c ;; k" := (bind c (fun _ => k))
  (at level 61, right associativity) : py_scope.
Open Scope py_scope.

(** [connection.write(text)] *)
Definition connection_write (text : string) : M unit :=
  fun w =>
    (Returned tt,
     mkWorld (port w) (baudrate w) (timeout w) (written w ++ [text])
             (incoming w) (slept w)).

(** Modelled from the spec: [readlines()] of the base class, which is
    not part of the source at hand.  It returns the lines of the next
    reply, none when nothing arrives before the timeout. *)
Definition readlines : M (list string) :=
  fun w =>
    match incoming w with
    | [] => (Returned [], w)
    | lines :: later =>
        (Returned lines,
         mkWorld (port w) (baudrate w) (timeout w) (written w) later (slept w))
    end.

(** [sleep(seconds)] *)
Definition sleep (seconds : Z) : M unit :=
  fun w =>
    (Returned tt,
     mkWorld (port w) (baudrate w) (timeout w) (written w) (incoming w)
             (slept w + seconds)).

(** Modelled from the spec: [SerialAdapter(port, baudrate, timeout)] of
    the [automate.instruments] package, which is not part of the source
    at hand.  It opens the connection with the given settings; nothing
    has been written to it yet. *)
Definition SerialAdapter (p : string) (baud : Z) (t : float)
    (replies : list (list string)) : world :=
  mkWorld p baud t [] replies 0.

(** Modelled from the spec: the constructor of the [Instrument] base
    class, which is not part of the source at hand.  It keeps the
    adapter as the connection of the instrument and writes nothing. *)
Definition Instrument_init (adapter : world) (name : string) : world := adapter.

(** ** The driver *)

Definition degreesPerCount : float := 0.00045%float.

Definition write (command : string) : M unit :=
  connection_write (command ++ str1 CR).

Definition read : M string :=
  lines <- readlines ;;
  ret (re_sub prompt_pattern "" (String.concat (str1 LF) lines)).

(** Modelled from the spec: [Instrument.ask] of the base class, which is
    not part of the source at hand.  A query is written like any other
    command and the full reply is read back. *)
Definition ask (command : string) : M string :=
  write command ;;
  read.

Definition enable : M unit := write "DRIVE1".

Definition disable : M unit := write "DRIVE0".

Definition status : M (list string) :=
  reply <- ask "TASF" ;;
  ret (split (String CR (String LF (str1 LF))) reply).

(** [int(match.group(0))] *)
Definition int_of_match (matched : string) : M Z :=
  match int_of_str matched with
  | Some z => ret z
  | None => raise ValueError
  end.

Definition getPosition : M (option Z) :=
  reply <- ask "TPE" ;;
  match re_search TPE_pattern reply with
  | None => ret None
  | Some matched => z <- int_of_match matched ;; ret (Some z)
  end.

Definition getPositionError : M (option Z) :=
  reply <- ask "TPER" ;;
  match re_search TPER_pattern reply with
  | None => ret None
  | Some matched => z <- int_of_match matched ;; ret (Some z)
  end.

Definition isMoving : M bool :=
  position <- getPosition ;;
  ret (match position with None => true | Some _ => false end).

(** [position*self.degreesPerCount]: the int is converted to a float
    first. *)
Definition getAngle : M (option float) :=
  position <- getPosition ;;
  match position with
  | Some z => x <- lift (float_of_int z) ;; ret (Some (x * degreesPerCount)%float)
  | None => ret None
  end.

Definition getAngleError : M (option float) :=
  positionError <- getPositionError ;;
  match positionError with
  | Some z => x <- lift (float_of_int z) ;; ret (Some (x * degreesPerCount)%float)
  | None => ret None
  end.

Definition setPosition (counts : number) : M unit :=
  c <- lift (int_of_number counts) ;;
  write ("D" ++ str_int c).

Definition setAngle (angle : float) : M unit :=
  c <- lift (int_of_float (angle * pow_neg1 degreesPerCount)%float) ;;
  setPosition (PyInt c).

Definition move : M unit := write "GO".

Definition stop : M unit := write "S".

Definition kill : M unit := write "K".

Definition setAbsolutePosition : M unit :=
  write "MA1" ;;
  write "MC0".

Definition setRelativePosition : M unit :=
  write "MA0" ;;
  write "MC0".

(** A parameter with a default value: [None] is the call that omits the
    argument. *)
Definition default {A : Type} (d : A) (arg : option A) : A :=
  match arg with
  | Some a => a
  | None => d
  end.

Definition setHardwareLimits (enable : option bool) : M unit :=
  if default false enable then write "LH1" else write "LH0".

Definition setSoftwareLimits (positive negative : number) : M unit :=
  p <- lift (int_of_number positive) ;;
  write ("LSPOS" ++ str_int p) ;;
  n <- lift (int_of_number negative) ;;
  write ("LSNEG" ++ str_int n).

Definition setEcho (enable : option bool) : M unit :=
  if default false enable then write "ECHO1" else write "ECHO0".

Section Driver.

(** The digits of a float argument that [str_float] leaves open. *)
Variable float_digits : float -> string.

Definition setAcceleration (acceleration : number) : M unit :=
  a <- lift (float_of_number acceleration) ;;
  write ("A" ++ str_float float_digits a).

Definition setAverageAcceleration (acceleration : number) : M unit :=
  a <- lift (float_of_number acceleration) ;;
  write ("AA" ++ str_float float_digits a).

Definition setVelocity (velocity : number) : M unit :=
  v <- lift (float_of_number velocity) ;;
  write ("V" ++ str_float float_digits v).

Definition setDefaults : M unit :=
  setEcho (Some false) ;;
  setHardwareLimits (Some false) ;;
  setAbsolutePosition ;;
  setAverageAcceleration (PyInt 1) ;;
  setAcceleration (PyInt 1) ;;
  setVelocity (PyInt 3).

(** The methods without parameters that the class defines ahead of
    [reset]. *)
Definition ParkerGV6_methods : list (string * M unit) :=
  [ ("setDefaults", setDefaults);
    ("enable", enable);
    ("disable", disable);
    ("move", move);
    ("stop", stop);
    ("kill", kill);
    ("setAbsolutePosition", setAbsolutePosition);
    ("setRelativePosition", setRelativePosition) ].

(** Modelled from the spec: what the [Instrument] base class, which is
    not part of the source at hand, adds to them.  It holds the
    connection and the generic [ask], [write] and [read] helpers; the
    class overrides [write] and [read], and [ask] takes the command.
    No further method without parameters is inherited. *)
Definition Instrument_methods : list (string * M unit) := [].

(** The methods a call [self.name()] can reach. *)
Definition methods : list (string * M unit) :=
  ParkerGV6_methods ++ Instrument_methods.

Fixpoint lookup (name : string) (table : list (string * M unit))
  : option (M unit) :=
  match table with
  | [] => None
  | (n, body) :: rest => if String.eqb name n then Some body else lookup name rest
  end.

(** [self.name()]: an unknown name raises [AttributeError]. *)
Definition call (name : string) : M unit :=
  match lookup name methods with
  | Some body => body
  | None => raise AttributeError
  end.

Definition reset : M unit :=
  write "RESET" ;;
  sleep 5 ;;
  call "setDefault" ;;
  call "enable".

Definition __init__ (p : string) (replies : list (list string))
  : outcome unit * world :=
  setDefaults
    (Instrument_init (SerialAdapter p 9600 0.5%float replies)
                     "Parker GV6 Motor Controller").

End Driver.

(** ** Vocabulary of the statements *)

(** A command as it travels on the wire: followed by one carriage
    return. *)
Definition terminated (command : string) : string := command ++ str1 CR.

(** The world after the given commands have been written. *)
Definition after_writing (w : world) (commands : list string) : world :=
  mkWorld (port w) (baudrate w) (timeout w)
          (written w ++ map terminated commands) (incoming w) (slept w).

(** The world after [sleep(seconds)]. *)
Definition after_sleeping (w : world) (seconds : Z) : world :=
  mkWorld (port w) (baudrate w) (timeout w) (written w) (incoming w)
          (slept w + seconds).

(** A connection just opened on which the instrument stays silent. *)
Definition silent : world := SerialAdapter "COM1" 9600 0.5%float [].

(** [setAngle] as the rounding reading has it: [setPosition] applied to
    [round(angle / 0.00045)]. *)
Definition setAngle_rounding (angle : float) : M unit :=
  c <- lift (round_float (angle / 0.00045)%float) ;;
  setPosition (PyInt c).

(** ** What the patterns describe

    The declarative reading of the two patterns, against which the
    matcher is checked. *)

(** The longest run of digits at the head of a text, and what is left. *)
Fixpoint span_digits (s : string) : string * string :=
  match s with
  | EmptyString => ("", "")
  | String c s' =>
      if is_digit c
      then let (ds, rest) := span_digits s' in (String c ds, rest)
      else ("", s)
  end.

Definition nonempty_run (sgn : string) (p : string * string)
  : option (string * string) :=
  match fst p with
  | EmptyString => None
  | _ => Some (sgn ++ fst p, snd p)
  end.

(** The text [-?\d+] takes at the head of [s]. *)
Definition signed_digits (s : string) : option (string * string) :=
  match s with
  | EmptyString => None
  | String c s' =>
      if Ascii.eqb "-" c then nonempty_run "-" (span_digits s')
      else nonempty_run "" (span_digits s)
  end.

(** Whether [-?\d+] can start at the head of [s]. *)
Definition token_start (s : string) : bool :=
  match s with
  | EmptyString => false
  | String c s' => if Ascii.eqb "-" c then starts_with_digit s' else is_digit c
  end.

Definition signed (sgn : string) (n : Z) : Z :=
  match sgn with
  | EmptyString => n
  | _ => - n
  end.

(** The reply holds no [TPE] directly followed by an optionally signed
    number. *)
Definition no_token (reply : string) : Prop :=
  forall u sgn d v,
    (sgn = "" \/ sgn = "-") -> is_digit d = true ->
    reply <> u ++ "TPE" ++ sgn ++ String d v.

(** [z] is the optionally signed decimal integer that directly follows
    the first [TPE] that has one. *)
Definition first_token (reply : string) (z : Z) : Prop :=
  exists pre sgn ds rest,
    reply = pre ++ "TPE" ++ sgn ++ ds ++ rest /\
    no_token pre /\
    (sgn = "" \/ sgn = "-") /\
    ds <> "" /\
    forallb_string is_digit ds = true /\
    starts_with_digit rest = false /\
    z = signed sgn (digits_value 0 ds).

(** The end of a reply: [\r\n\n], the prompt [p] and a space. *)
Definition terminator (p : string) : string :=
  String CR (String LF (String LF (p ++ " "))).

(** The prompts the pattern allows for: none, [>] or [?]. *)
Definition prompts : list string := [""; ">"; "?"].

Definition has_terminator (s : string) : Prop :=
  exists u p v, In p prompts /\ s = u ++ terminator p ++ v.

Definition no_CR (s : string) : bool :=
  forallb_string (fun c => negb (Ascii.eqb CR c)) s.

(** A connection on which the next [readlines()] returns [lines]. *)
Definition replying (lines : list string) : world :=
  SerialAdapter "COM1" 9600 0.5%float [lines].

(** ** The operations and the texts on the wire *)

Inductive operation : Type :=
| Reset
| Enable
| Disable
| Status
| IsMoving
| GetAngle
| GetAngleError
| SetAngle (angle : float)
| GetPosition
| GetPositionError
| SetPosition (counts : number)
| Move
| Stop
| Kill
| SetAbsolutePosition
| SetRelativePosition
| SetHardwareLimits (enable : option bool)
| SetSoftwareLimits (positive negative : number)
| SetEcho (enable : option bool)
| SetAcceleration (acceleration : number)
| SetAverageAcceleration (acceleration : number)
| SetVelocity (velocity : number)
| SetDefaults.

(** A call whose result is not looked at. *)
Definition discard {A : Type} (c : M A) : M unit := _ <- c ;; ret tt.

Definition perform (float_digits : float -> string) (op : operation) : M unit :=
  match op with
  | Reset => reset float_digits
  | Enable => enable
  | Disable => disable
  | Status => discard status
  | IsMoving => discard isMoving
  | GetAngle => discard getAngle
  | GetAngleError => discard getAngleError
  | SetAngle angle => setAngle angle
  | GetPosition => discard getPosition
  | GetPositionError => discard getPositionError
  | SetPosition counts => setPosition counts
  | Move => move
  | Stop => stop
  | Kill => kill
  | SetAbsolutePosition => setAbsolutePosition
  | SetRelativePosition => setRelativePosition
  | SetHardwareLimits e => setHardwareLimits e
  | SetSoftwareLimits positive negative => setSoftwareLimits positive negative
  | SetEcho e => setEcho e
  | SetAcceleration a => setAcceleration float_digits a
  | SetAverageAcceleration a => setAverageAcceleration float_digits a
  | SetVelocity v => setVelocity float_digits v
  | SetDefaults => setDefaults float_digits
  end.

Fixpoint skip_upper (s : string) : string :=
  match s with
  | EmptyString => ""
  | String c s' => if is_upper c then skip_upper s' else s
  end.

(** A command: a mnemonic of capital letters, then nothing or a decimal
    argument. *)
Definition is_command (cmd : string) : bool :=
  match cmd with
  | EmptyString => false
  | String c _ => is_upper c && forallb_string is_decimal_char (skip_upper cmd)
  end.

(** The text without its last character, when that is a carriage
    return. *)
Fixpoint without_final_CR (t : string) : option string :=
  match t with
  | EmptyString => None
  | String c t' =>
      match t' with
      | EmptyString => if Ascii.eqb CR c then Some "" else None
      | _ => option_map (String c) (without_final_CR t')
      end
  end.

(** The text ends with a carriage return and holds no other. *)
Definition ends_with_one_CR (t : string) : bool :=
  match without_final_CR t with
  | Some cmd => no_CR cmd
  | None => false
  end.

(** The text is a command followed by a carriage return, its only
    one. *)
Definition is_command_line (t : string) : bool :=
  match without_final_CR t with
  | Some cmd => is_command cmd && no_CR cmd
  | None => false
  end.

Definition finite_number (n : number) : bool :=
  match n with
  | PyInt _ => true
  | PyFloat x => finite_float x
  end.

(** No acceleration or velocity argument is an infinity or a NaN. *)
Definition finite_arguments (op : operation) : bool :=
  match op with
  | SetAcceleration a | SetAverageAcceleration a | SetVelocity a => finite_number a
  | _ => true
  end.

(** Whatever the call does, the texts it writes all satisfy [P]. *)
Definition emits (P : string -> Prop) {A : Type} (c : M A) : Prop :=
  forall w, exists texts : list string,
    written (snd (c w)) = (written w ++ texts)%list /\ Forall P texts.

(** ** Vocabulary of the further properties *)

(** [(?<=label)-?\d+], the shape of both position patterns. *)
Definition token_pattern (label : string) : regex :=
  Seq (LookBehind label) (Seq (Opt (Chr "-")) (Plus Digit)).

(** A character that is neither a digit nor a minus sign. *)
Definition is_plain (c : ascii) : bool :=
  negb (is_digit c) && negb (Ascii.eqb "-" c).

(** The reply holds no [label] directly followed by an optionally signed
    number. *)
Definition no_token_after (label reply : string) : Prop :=
  forall u sgn d v,
    (sgn = "" \/ sgn = "-") -> is_digit d = true ->
    reply <> u ++ label ++ sgn ++ String d v.

(** [z] is the optionally signed decimal integer that directly follows
    the first [label] that has one. *)
Definition first_token_after (label reply : string) (z : Z) : Prop :=
  exists pre sgn ds rest,
    reply = pre ++ label ++ sgn ++ ds ++ rest /\
    no_token_after label pre /\
    (sgn = "" \/ sgn = "-") /\
    ds <> "" /\
    forallb_string is_digit ds = true /\
    starts_with_digit rest = false /\
    z = signed sgn (digits_value 0 ds).

(** The operations that read a reply. *)
Definition is_query (op : operation) : bool :=
  match op with
  | Status | IsMoving | GetAngle | GetAngleError | GetPosition
  | GetPositionError => true
  | _ => false
  end.

(** The world after one reply has been taken from the connection. *)
Definition after_reading (w : world) : world :=
  mkWorld (port w) (baudrate w) (timeout w) (written w) (tl (incoming w))
          (slept w).

(** The counts from [-n] to [n]. *)
Definition counts_within (n : nat) : list Z :=
  map (fun k => Z.of_nat k - Z.of_nat n) (seq 0 (S (2 * n))).

(** What [setAngle] makes of the angle [getAngle] reports for the count
    [c]: the count it sends, when both calls return. *)
Definition count_there_and_back (c : Z) : option Z :=
  match float_of_int c with
  | Returned x =>
      match int_of_float ((x * degreesPerCount) * pow_neg1 degreesPerCount)%float with
      | Returned c' => Some c'
      | Raised _ => None
      end
  | Raised _ => None
  end.

(** The count comes back as it is or one nearer to zero. *)
Definition back_within_one (c : Z) : bool :=
  match count_there_and_back c with
  | Some c' => (c' =? c) || (c' =? c - Z.sgn c)
  | None => false
  end.

(** The text holds [sep] somewhere. *)
Definition holds (sep s : string) : Prop :=
  exists u v, s = u ++ sep ++ v.

(** [\r\n\n], the separator of the status lines. *)
Definition blank_line : string := String CR (String LF (str1 LF)).

(** [float(n)] is a whole number that [str] prints as the numeral of
    [n] followed by [.0], whatever the digits of other floats are. *)
Definition prints_whole (n : Z) : bool :=
  match float_of_int n with
  | Returned x =>
      match Prim2SF x with
      | S754_zero s => negb s && (n =? 0)
      | S754_finite s m e =>
          (if 0 <=? e then true else Zpos m mod 2 ^ (- e) =? 0)
          && (Z.abs (truncate s m e) <? 10 ^ 12)
          && String.eqb ((if s then "-" else "") ++ str_nat (Z.abs (truncate s m e)))
                        (str_int n)
      | _ => false
      end
  | Raised _ => false
  end.

(** * Properties *)

(** ** Strings *)

#[local] Arguments is_digit : simpl never.
#[local] Arguments is_upper : simpl never.
#[local] Arguments is_decimal_char : simpl never.
#[local] Arguments digit_char : simpl never.
#[local] Arguments digit_val : simpl never.
#[local] Arguments Z.pow : simpl never.
#[local] Arguments Z.mul : simpl never.
#[local] Arguments Z.add : simpl never.

Lemma append_nil_r (s : string) : s ++ "" = s.
Proof. induction s as [|c s IH]; simpl; [reflexivity | now rewrite IH]. Qed.

Lemma append_assoc (a b c : string) : (a ++ b) ++ c = a ++ (b ++ c).
Proof. induction a as [|x a IH]; simpl; [reflexivity | now rewrite IH]. Qed.

Lemma rev_onto_app (a b acc : string) :
  rev_onto (a ++ b) acc = rev_onto b (rev_onto a acc).
Proof. revert acc; induction a as [|x a IH]; intros acc; simpl; auto. Qed.

Lemma rev_onto_spec (s acc : string) : rev_onto s acc = rev_string s ++ acc.
Proof.
  unfold rev_string. revert acc.
  induction s as [|c s IH]; intros acc; simpl; [reflexivity|].
  rewrite (IH (String c "")), IH, append_assoc. reflexivity.
Qed.

Lemma rev_string_app (a b : string) :
  rev_string (a ++ b) = rev_string b ++ rev_string a.
Proof.
  unfold rev_string at 1. rewrite rev_onto_app, rev_onto_spec.
  fold (rev_string a). reflexivity.
Qed.

Lemma rev_string_involutive (s : string) : rev_string (rev_string s) = s.
Proof.
  induction s as [|c s IH]; [reflexivity|].
  change (String c s) with (str1 c ++ s) at 1.
  rewrite rev_string_app, rev_string_app, IH. reflexivity.
Qed.

Lemma prefix_app (w x : string) : String.prefix w (w ++ x) = true.
Proof.
  induction w as [|c w IH]; simpl; [now destruct x|].
  destruct (ascii_dec c c); [exact IH | congruence].
Qed.

Lemma prefix_inv (w s : string) :
  String.prefix w s = true -> exists x, s = w ++ x.
Proof.
  revert s; induction w as [|c w IH]; intros s H.
  - exists s; reflexivity.
  - destruct s as [|d s]; simpl in H; [discriminate|].
    destruct (ascii_dec c d) as [->|]; [|discriminate].
    destruct (IH _ H) as [x ->]. exists x; reflexivity.
Qed.

(** The text before the cursor ends with [w] exactly when its mirror
    image starts with the mirror image of [w]. *)
Lemma prefix_rev_inv (w u : string) :
  String.prefix (rev_string w) (rev_string u) = true ->
  exists pre, u = pre ++ w.
Proof.
  intros H. apply prefix_inv in H. destruct H as [x H].
  exists (rev_string x).
  rewrite <- (rev_string_involutive u), H, rev_string_app.
  now rewrite rev_string_involutive.
Qed.

Lemma prefix_rev_app (w pre : string) :
  String.prefix (rev_string w) (rev_string (pre ++ w)) = true.
Proof. rewrite rev_string_app. apply prefix_app. Qed.

Lemma forallb_string_app (p : ascii -> bool) (a b : string) :
  forallb_string p (a ++ b) = forallb_string p a && forallb_string p b.
Proof.
  induction a as [|c a IH]; simpl; [reflexivity|].
  now rewrite IH, andb_assoc.
Qed.

(** ** Decimal numerals *)

Lemma is_digit_digit_char (n : Z) : is_digit (digit_char (n mod 10)) = true.
Proof.
  assert (H : 0 <= n mod 10 < 10) by (apply Z.mod_pos_bound; lia).
  unfold is_digit, digit_char.
  rewrite nat_ascii_embedding by lia.
  apply andb_true_intro; split; apply Nat.leb_le; lia.
Qed.

Lemma digit_val_digit_char (n : Z) : digit_val (digit_char (n mod 10)) = n mod 10.
Proof.
  assert (H : 0 <= n mod 10 < 10) by (apply Z.mod_pos_bound; lia).
  unfold digit_val, digit_char.
  rewrite nat_ascii_embedding by lia. lia.
Qed.

Lemma digits_onto_digits (fuel : nat) (n : Z) (acc : string) :
  forallb_string is_digit (digits_onto fuel n acc) = forallb_string is_digit acc.
Proof.
  revert n acc; induction fuel as [|fuel IH]; intros n acc;
    cbn [digits_onto]; [reflexivity|].
  destruct (n <? 10).
  - cbn [forallb_string]. now rewrite is_digit_digit_char.
  - rewrite IH. cbn [forallb_string]. now rewrite is_digit_digit_char.
Qed.

Lemma digits_onto_nonempty (fuel : nat) (n : Z) (acc : string) :
  digits_onto (S fuel) n acc <> "".
Proof.
  revert n acc; induction fuel as [|fuel IH]; intros n acc.
  - cbn [digits_onto]. destruct (n <? 10); discriminate.
  - change (digits_onto (S (S fuel)) n acc) with
      (let acc' := String (digit_char (n mod 10)) acc in
       if n <? 10 then acc' else digits_onto (S fuel) (n / 10) acc').
    cbv zeta. destruct (n <? 10); [discriminate | apply IH].
Qed.

Lemma digits_onto_value (fuel : nat) :
  forall n acc a, 0 <= n < 2 ^ Z.of_nat fuel ->
    exists k, 0 <= k /\
      digits_value a (digits_onto fuel n acc) = digits_value (a * 10 ^ k + n) acc.
Proof.
  induction fuel as [|fuel IH]; intros n acc a Hn.
  - exists 0. split; [lia|]. cbn [digits_onto]. f_equal.
    change (2 ^ Z.of_nat 0) with 1 in Hn. lia.
  - cbn [digits_onto]. destruct (Z.ltb_spec n 10) as [Hlt|Hge].
    + exists 1. split; [lia|]. cbn [digits_value]. rewrite digit_val_digit_char.
      rewrite Z.mod_small by lia. f_equal. lia.
    + assert (Hdiv : 0 <= n / 10 < 2 ^ Z.of_nat fuel).
      { split; [apply Z.div_pos; lia|].
        apply Z.div_lt_upper_bound; [lia|].
        rewrite Nat2Z.inj_succ, Z.pow_succ_r in Hn by lia. lia. }
      destruct (IH (n / 10) (String (digit_char (n mod 10)) acc) a Hdiv)
        as [k [Hk E]].
      exists (k + 1). split; [lia|].
      rewrite E. cbn [digits_value]. rewrite digit_val_digit_char. f_equal.
      rewrite Z.pow_add_r by lia.
      pose proof (Z.div_mod n 10 ltac:(lia)). lia.
Qed.

Lemma str_nat_digits (n : Z) : forallb_string is_digit (str_nat n) = true.
Proof. unfold str_nat. now rewrite digits_onto_digits. Qed.

Lemma str_nat_nonempty (n : Z) : str_nat n <> "".
Proof. apply digits_onto_nonempty. Qed.

Lemma str_nat_value (n : Z) : 0 <= n -> nat_of_digits (str_nat n) = Some n.
Proof.
  intros Hn. unfold nat_of_digits.
  pose proof (str_nat_nonempty n) as Hne.
  pose proof (str_nat_digits n) as Hd.
  destruct (str_nat n) as [|c s] eqn:E; [congruence|].
  rewrite Hd. f_equal. rewrite <- E. unfold str_nat.
  assert (Hb : 0 <= n < 2 ^ Z.of_nat (S (Z.to_nat (Z.log2 n)))).
  { split; [lia|]. rewrite Nat2Z.inj_succ, Z2Nat.id by apply Z.log2_nonneg.
    destruct (Z.eq_dec n 0) as [->|]; [reflexivity|].
    apply Z.log2_spec. lia. }
  destruct (digits_onto_value _ n "" 0 Hb) as [k [_ E']].
  rewrite E'. cbn [digits_value]. lia.
Qed.

Lemma is_digit_not_sign (c : ascii) :
  is_digit c = true -> Ascii.eqb c "-" = false /\ Ascii.eqb c "+" = false.
Proof.
  intros H. split.
  - destruct (Ascii.eqb_spec c "-") as [->|]; [discriminate H | reflexivity].
  - destruct (Ascii.eqb_spec c "+") as [->|]; [discriminate H | reflexivity].
Qed.

(** Reading back what [str] printed gives the integer again: the text
    after a mnemonic is the decimal numeral of the argument. *)
Lemma int_of_str_str_int (z : Z) : int_of_str (str_int z) = Some z.
Proof.
  unfold str_int. destruct (Z.ltb_spec z 0) as [Hneg|Hpos].
  - cbn [int_of_str]. change (Ascii.eqb "-" "-") with true. cbv iota.
    rewrite str_nat_value by lia. cbn [option_map]. f_equal. lia.
  - pose proof (str_nat_value z Hpos) as Hv.
    pose proof (str_nat_digits z) as Hd.
    destruct (str_nat z) as [|c s] eqn:E; [discriminate Hv|].
    cbn [forallb_string] in Hd. apply andb_prop in Hd. destruct Hd as [Hc _].
    destruct (is_digit_not_sign c Hc) as [H1 H2].
    unfold int_of_str. rewrite H1, H2. exact Hv.
Qed.

Lemma is_digit_decimal (c : ascii) : is_digit c = true -> is_decimal_char c = true.
Proof. intros H. unfold is_decimal_char. now rewrite H. Qed.

Lemma digits_decimal (s : string) :
  forallb_string is_digit s = true -> forallb_string is_decimal_char s = true.
Proof.
  induction s as [|c s IH]; simpl; [reflexivity|].
  intros H. apply andb_prop in H. destruct H as [Hc Hs].
  now rewrite (is_digit_decimal c Hc), IH.
Qed.

Lemma str_int_decimal (z : Z) : forallb_string is_decimal_char (str_int z) = true.
Proof.
  unfold str_int. destruct (z <? 0).
  - simpl. apply digits_decimal, str_nat_digits.
  - apply digits_decimal, str_nat_digits.
Qed.

(** ** The matcher on [-?\d+] *)

Lemma span_digits_spec (s : string) :
  s = fst (span_digits s) ++ snd (span_digits s) /\
  forallb_string is_digit (fst (span_digits s)) = true /\
  starts_with_digit (snd (span_digits s)) = false.
Proof.
  induction s as [|c s IH]; simpl; [auto|].
  destruct (is_digit c) eqn:Hc.
  - destruct (span_digits s) as [ds rest]; simpl in *.
    destruct IH as [E [Hd Hr]]. rewrite Hc, Hd, <- E. auto.
  - simpl. now rewrite Hc.
Qed.

Lemma span_digits_run (ds rest : string) :
  forallb_string is_digit ds = true -> starts_with_digit rest = false ->
  span_digits (ds ++ rest) = (ds, rest).
Proof.
  induction ds as [|c ds IH]; simpl; intros Hd Hr.
  - destruct rest as [|c r]; [reflexivity|]. simpl in *. now rewrite Hr.
  - apply andb_prop in Hd. destruct Hd as [Hc Hd]. now rewrite Hc, IH.
Qed.

Lemma span_digits_empty (s : string) :
  fst (span_digits s) = "" <-> starts_with_digit s = false.
Proof.
  destruct s as [|c s]; simpl; [tauto|].
  destruct (is_digit c); [|tauto].
  destruct (span_digits s); simpl. split; discriminate.
Qed.

Section PlusDigits.

Let accept : @cont (string * string) := fun m s' => Some (rev_string m, s').

Lemma plus_loop_digits (s : string) :
  forall fuel m, (String.length s < fuel)%nat ->
    plus_loop (match_char is_digit) accept fuel m s =
    match fst (span_digits s) with
    | EmptyString => None
    | ds => Some (rev_string (rev_onto ds m), snd (span_digits s))
    end.
Proof.
  induction s as [|c s IH]; intros fuel m Hf;
    (destruct fuel as [|fuel]; [simpl in Hf; lia|]).
  - reflexivity.
  - simpl. destruct (is_digit c) eqn:Hc; [|reflexivity].
    rewrite IH by (simpl in Hf; lia).
    pose proof (span_digits_spec s) as [E _].
    destruct (span_digits s) as [ds rest]; simpl in *.
    destruct ds as [|d ds]; simpl in *; [|reflexivity].
    unfold accept. now rewrite <- E.
Qed.

Lemma rmatch_plus_digit (before m s : string) :
  rmatch before (Plus Digit) accept m s =
  match fst (span_digits s) with
  | EmptyString => None
  | ds => Some (rev_string (rev_onto ds m), snd (span_digits s))
  end.
Proof.
  change (rmatch before (Plus Digit) accept m s)
    with (plus_loop (match_char is_digit) accept (S (String.length s)) m s).
  apply plus_loop_digits. lia.
Qed.

Lemma rev_string_rev_onto (ds m : string) :
  rev_string (rev_onto ds m) = rev_string m ++ ds.
Proof.
  now rewrite rev_onto_spec, rev_string_app, rev_string_involutive.
Qed.

Lemma match_here_token (label before s : string) :
  match_here before (Seq (LookBehind label) (Seq (Opt (Chr "-")) (Plus Digit))) s =
  if String.prefix (rev_string label) before then signed_digits s else None.
Proof.
  unfold match_here. fold accept.
  change (rmatch before (Seq (LookBehind label) (Seq (Opt (Chr "-")) (Plus Digit)))
            accept "" s)
    with (if String.prefix (rev_string label) before
          then or_else
                 (match_char (Ascii.eqb "-") (rmatch before (Plus Digit) accept) "" s)
                 (rmatch before (Plus Digit) accept "" s)
          else None).
  destruct (String.prefix (rev_string label) before); [|reflexivity].
  unfold signed_digits, nonempty_run.
  destruct s as [|c s]; [reflexivity|].
  unfold match_char. rewrite !rmatch_plus_digit.
  destruct (Ascii.eqb_spec "-" c) as [<-|Hc].
  - destruct (fst (span_digits s)) as [|d ds] eqn:E; [reflexivity|].
    cbn [or_else]. now rewrite rev_string_rev_onto.
  - cbn [or_else].
    destruct (fst (span_digits (String c s))) as [|d ds] eqn:E; [reflexivity|].
    now rewrite rev_string_rev_onto.
Qed.

End PlusDigits.

Lemma signed_digits_none (s : string) :
  signed_digits s = None <-> token_start s = false.
Proof.
  unfold signed_digits, token_start, nonempty_run.
  destruct s as [|c s]; [tauto|].
  destruct (Ascii.eqb "-" c).
  - rewrite <- span_digits_empty.
    destruct (fst (span_digits s)); split; congruence.
  - change (is_digit c) with (starts_with_digit (String c s)).
    rewrite <- span_digits_empty.
    destruct (fst (span_digits (String c s))); split; congruence.
Qed.

Lemma signed_digits_run (sgn ds rest : string) :
  sgn = "" \/ sgn = "-" -> ds <> "" ->
  forallb_string is_digit ds = true -> starts_with_digit rest = false ->
  signed_digits (sgn ++ ds ++ rest) = Some (sgn ++ ds, rest).
Proof.
  intros Hs Hne Hd Hr. unfold signed_digits, nonempty_run.
  destruct Hs as [-> | ->].
  - destruct ds as [|d ds]; [congruence|].
    cbn [append]. cbn [forallb_string] in Hd.
    pose proof Hd as Hd'. apply andb_prop in Hd'. destruct Hd' as [Hc _].
    destruct (is_digit_not_sign d Hc) as [H1 _].
    rewrite Ascii.eqb_sym, H1.
    change (String d (ds ++ rest)) with (String d ds ++ rest).
    now rewrite span_digits_run.
  - cbn [append]. change (Ascii.eqb "-" "-") with true. cbv iota.
    rewrite span_digits_run by assumption.
    destruct ds; [congruence | reflexivity].
Qed.

Lemma signed_digits_some (s matched rest : string) :
  signed_digits s = Some (matched, rest) ->
  exists sgn ds,
    s = sgn ++ ds ++ rest /\ matched = sgn ++ ds /\
    (sgn = "" \/ sgn = "-") /\ ds <> "" /\
    forallb_string is_digit ds = true /\ starts_with_digit rest = false.
Proof.
  unfold signed_digits, nonempty_run. destruct s as [|c s]; [discriminate|].
  destruct (Ascii.eqb_spec "-" c) as [<-|Hc]; intros H.
  - pose proof (span_digits_spec s) as [E [Hd Hr]].
    destruct (fst (span_digits s)) as [|d ds] eqn:F; [discriminate|].
    injection H as <- <-. exists "-", (String d ds).
    repeat split; auto; try discriminate. cbn [append]. f_equal. exact E.
  - pose proof (span_digits_spec (String c s)) as [E [Hd Hr]].
    destruct (fst (span_digits (String c s))) as [|d ds] eqn:F; [discriminate|].
    injection H as <- <-. exists "", (String d ds).
    repeat split; auto; discriminate.
Qed.

Lemma token_start_signed (sgn : string) (d : ascii) (v : string) :
  sgn = "" \/ sgn = "-" -> is_digit d = true ->
  token_start (sgn ++ String d v) = true.
Proof.
  intros [-> | ->] Hd; cbn [append token_start].
  - destruct (is_digit_not_sign d Hd) as [H1 _].
    now rewrite Ascii.eqb_sym, H1.
  - change (Ascii.eqb "-" "-") with true. cbv iota. exact Hd.
Qed.

(** A token that starts inside [u], when [u] is followed by a letter. *)
Lemma token_start_before_letter (u : string) (c : ascii) (w : string) :
  is_digit c = false -> Ascii.eqb "-" c = false ->
  token_start (u ++ String c w) = true ->
  exists sgn d v, (sgn = "" \/ sgn = "-") /\ is_digit d = true /\ u = sgn ++ String d v.
Proof.
  intros Hc1 Hc2 H. destruct u as [|a u]; cbn [append token_start] in H.
  - rewrite Hc2 in H. congruence.
  - destruct (Ascii.eqb_spec "-" a) as [<-|Ha].
    + destruct u as [|b u]; cbn [append starts_with_digit] in H; [congruence|].
      exists "-", b, u. auto.
    + exists "", a, u. auto.
Qed.

(** ** The search *)

Lemma search_from_skip (r : regex) (pre : string) :
  forall before s,
    (forall u1 u2, pre = u1 ++ u2 -> u2 <> "" ->
       match_here (rev_onto u1 before) r (u2 ++ s) = None) ->
    search_from r before (pre ++ s) = search_from r (rev_onto pre before) s.
Proof.
  induction pre as [|c pre IH]; intros before s H; [reflexivity|].
  cbn [append]. 
  assert (H0 : match_here before r (String c (pre ++ s)) = None)
    by (apply (H "" (String c pre)); [reflexivity | discriminate]).
  cbn [search_from]. rewrite H0. cbn [rev_onto].
  apply IH. intros u1 u2 E Hne. apply (H (String c u1) u2); [|exact Hne].
  now rewrite E.
Qed.

Lemma search_from_here (r : regex) (before s matched rest : string) :
  match_here before r s = Some (matched, rest) ->
  search_from r before s = Some matched.
Proof. intros H. destruct s; cbn [search_from]; now rewrite H. Qed.

Lemma search_from_some (r : regex) (s : string) :
  forall before matched,
    search_from r before s = Some matched ->
    exists u v rest,
      s = u ++ v /\
      match_here (rev_onto u before) r v = Some (matched, rest) /\
      (forall u1 u2, u = u1 ++ u2 -> u2 <> "" ->
         match_here (rev_onto u1 before) r (u2 ++ v) = None).
Proof.
  induction s as [|c s IH]; intros before matched H; cbn [search_from] in H.
  - destruct (match_here before r "") as [[m rest]|] eqn:E; [|discriminate].
    injection H as ->. exists "", "", rest. repeat split; auto.
    intros u1 u2 E' Hne. destruct u1; destruct u2; try discriminate. congruence.
  - destruct (match_here before r (String c s)) as [[m rest]|] eqn:E.
    + injection H as ->. exists "", (String c s), rest. repeat split; auto.
      intros u1 u2 E' Hne. destruct u1; destruct u2; try discriminate. congruence.
    + destruct (IH _ _ H) as [u [v [rest [Es [Hm Hearlier]]]]].
      exists (String c u), v, rest. repeat split.
      * cbn [append]. now rewrite Es.
      * exact Hm.
      * intros u1 u2 E' Hne. destruct u1 as [|a u1].
        -- cbn [append] in E'. subst u2. cbn [rev_onto append]. now rewrite <- Es.
        -- cbn [append] in E'. injection E' as <- E'.
           cbn [rev_onto]. now apply Hearlier.
Qed.

Lemma search_from_none (r : regex) (s : string) :
  forall before,
    search_from r before s = None ->
    forall u v, s = u ++ v -> match_here (rev_onto u before) r v = None.
Proof.
  induction s as [|c s IH]; intros before H u v E; cbn [search_from] in H.
  - destruct u; [|discriminate]. cbn [append] in E. subst v.
    cbn [rev_onto].
    destruct (match_here before r "") as [[m rest]|]; [discriminate | reflexivity].
  - destruct (match_here before r (String c s)) as [[m rest]|] eqn:E0; [discriminate|].
    destruct u as [|a u]; cbn [append] in E.
    + subst v. exact E0.
    + injection E as <- E. cbn [rev_onto]. now apply IH.
Qed.

(** ** The position pattern *)

Lemma match_here_TPE (before s : string) :
  match_here before TPE_pattern s =
  if String.prefix "EPT" before then signed_digits s else None.
Proof. apply (match_here_token "TPE"). Qed.

Lemma signed_digits_letter (c : ascii) (x : string) :
  is_digit c = false -> Ascii.eqb "-" c = false ->
  signed_digits (String c x) = None.
Proof.
  intros H1 H2. apply signed_digits_none. cbn [token_start]. now rewrite H2.
Qed.

Lemma search_from_letter (before : string) (c : ascii) (x : string) :
  is_digit c = false -> Ascii.eqb "-" c = false ->
  search_from TPE_pattern before (String c x) =
  search_from TPE_pattern (String c before) x.
Proof.
  intros H1 H2. cbn [search_from]. rewrite match_here_TPE.
  rewrite signed_digits_letter by assumption.
  now destruct (String.prefix "EPT" before).
Qed.

Lemma TPE_positions_before (pre v : string) :
  no_token pre ->
  forall u1 u2, pre = u1 ++ u2 -> u2 <> "" ->
    match_here (rev_onto u1 "") TPE_pattern (u2 ++ "TPE" ++ v) = None.
Proof.
  intros Hno u1 u2 E Hne. rewrite match_here_TPE.
  destruct (String.prefix "EPT" (rev_onto u1 "")) eqn:P; [|reflexivity].
  apply signed_digits_none.
  destruct (token_start (u2 ++ "TPE" ++ v)) eqn:T; [exfalso | reflexivity].
  apply (prefix_rev_inv "TPE" u1) in P. destruct P as [x ->].
  apply (token_start_before_letter u2 "T" ("PE" ++ v)) in T;
    [| reflexivity | reflexivity].
  destruct T as [sgn [d [v' [Hs [Hd ->]]]]].
  apply (Hno x sgn d v' Hs Hd). rewrite E. now rewrite append_assoc.
Qed.

Lemma TPE_found (pre sgn ds rest : string) :
  no_token pre -> sgn = "" \/ sgn = "-" -> ds <> "" ->
  forallb_string is_digit ds = true -> starts_with_digit rest = false ->
  re_search TPE_pattern (pre ++ "TPE" ++ sgn ++ ds ++ rest) = Some (sgn ++ ds).
Proof.
  intros Hno Hs Hne Hd Hr. unfold re_search.
  rewrite search_from_skip by (apply TPE_positions_before; exact Hno).
  cbn [append]. rewrite !search_from_letter by reflexivity.
  apply (search_from_here _ _ _ _ rest).
  rewrite match_here_TPE.
  change (String "E" (String "P" (String "T" (rev_onto pre ""))))
    with ("EPT" ++ rev_onto pre "").
  rewrite prefix_app. now apply signed_digits_run.
Qed.

Lemma TPE_none_sound (reply : string) :
  re_search TPE_pattern reply = None -> no_token reply.
Proof.
  intros H u sgn d v Hs Hd E.
  pose proof (search_from_none _ _ _ H (u ++ "TPE") (sgn ++ String d v)) as N.
  rewrite match_here_TPE in N.
  change (rev_onto (u ++ "TPE") "") with (rev_string (u ++ "TPE")) in N.
  change "EPT" with (rev_string "TPE") in N.
  rewrite prefix_rev_app in N.
  assert (T : token_start (sgn ++ String d v) = true) by now apply token_start_signed.
  rewrite signed_digits_none in N. rewrite N in T; [discriminate|].
  rewrite E. now rewrite append_assoc.
Qed.

Lemma TPE_some_sound (reply matched : string) :
  re_search TPE_pattern reply = Some matched ->
  exists pre sgn ds rest,
    reply = pre ++ "TPE" ++ sgn ++ ds ++ rest /\ matched = sgn ++ ds /\
    no_token pre /\ (sgn = "" \/ sgn = "-") /\ ds <> "" /\
    forallb_string is_digit ds = true /\ starts_with_digit rest = false.
Proof.
  intros H. apply search_from_some in H.
  destruct H as [u [v [rest [E [Hm Hearlier]]]]].
  rewrite match_here_TPE in Hm.
  destruct (String.prefix "EPT" (rev_onto u "")) eqn:P; [|discriminate].
  apply (prefix_rev_inv "TPE" u) in P. destruct P as [pre ->].
  apply signed_digits_some in Hm.
  destruct Hm as [sgn [ds [-> [-> [Hs [Hne [Hd Hr]]]]]]].
  exists pre, sgn, ds, rest. repeat split; auto.
  - rewrite E. now rewrite append_assoc.
  - intros x sgn' d v' Hs' Hd' Epre.
    pose proof (Hearlier (x ++ "TPE") (sgn' ++ String d v' ++ "TPE")) as N.
    rewrite match_here_TPE in N.
    change (rev_onto (x ++ "TPE") "") with (rev_string (x ++ "TPE")) in N.
    change "EPT" with (rev_string "TPE") in N.
    rewrite prefix_rev_app in N.
    assert (T : token_start ((sgn' ++ String d v' ++ "TPE") ++ sgn ++ ds ++ rest) = true).
    { rewrite append_assoc. cbn [append].
      change (String d ((v' ++ "TPE") ++ sgn ++ ds ++ rest))
        with (String d ((v' ++ "TPE") ++ sgn ++ ds ++ rest)).
      now apply token_start_signed. }
    rewrite signed_digits_none in N. rewrite N in T; [discriminate | |].
    + rewrite Epre. rewrite !append_assoc. cbn [append].
      rewrite ?append_assoc. reflexivity.
    + destruct sgn'; discriminate.
Qed.

Lemma int_of_signed (sgn ds : string) :
  sgn = "" \/ sgn = "-" -> ds <> "" -> forallb_string is_digit ds = true ->
  int_of_str (sgn ++ ds) = Some (signed sgn (digits_value 0 ds)).
Proof.
  intros Hs Hne Hd.
  assert (Hn : nat_of_digits ds = Some (digits_value 0 ds)).
  { unfold nat_of_digits. destruct ds; [congruence | now rewrite Hd]. }
  destruct Hs as [-> | ->].
  - destruct ds as [|d ds]; [congruence|].
    cbn [forallb_string] in Hd. apply andb_prop in Hd. destruct Hd as [Hc _].
    destruct (is_digit_not_sign d Hc) as [H1 H2].
    cbn [append int_of_str signed]. now rewrite H1, H2.
  - cbn [append int_of_str signed].
    change (Ascii.eqb "-" "-") with true. cbv iota. now rewrite Hn.
Qed.

(** ** The prompt pattern *)

Ltac split_match H :=
  repeat match type of H with
    | context [match ?s with EmptyString => _ | String _ _ => _ end] =>
        destruct s; try discriminate H
    | context [if Ascii.eqb ?a ?b then _ else _] =>
        destruct (Ascii.eqb_spec a b); subst; try discriminate H; try congruence
    end.

Lemma match_here_prompt_some (before s matched rest : string) :
  match_here before prompt_pattern s = Some (matched, rest) ->
  exists p, In p prompts /\ s = terminator p ++ rest /\ matched = terminator p.
Proof.
  unfold match_here, prompt_pattern. cbn [rmatch]. unfold match_char, or_else.
  intros H. split_match H; injection H as <- <-;
    solve [ exists ""; cbn; repeat split; auto
          | exists ">"; cbn; repeat split; auto
          | exists "?"; cbn; repeat split; auto ].
Qed.

Lemma match_here_prompt_terminator (before p rest : string) :
  In p prompts ->
  match_here before prompt_pattern (terminator p ++ rest) = Some (terminator p, rest).
Proof. intros [<- | [<- | [<- | []]]]; reflexivity. Qed.

Lemma match_here_prompt_other (before : string) (c : ascii) (s : string) :
  Ascii.eqb CR c = false -> match_here before prompt_pattern (String c s) = None.
Proof.
  intros H. unfold match_here, prompt_pattern. cbn [rmatch]. unfold match_char.
  now rewrite H.
Qed.

Lemma sub_from_no_match (r : regex) (repl s : string) :
  forall before,
    (forall u1 u2, s = u1 ++ u2 -> match_here (rev_onto u1 before) r u2 = None) ->
    sub_from r repl before s 0 = s.
Proof.
  induction s as [|c s IH]; intros before H; [reflexivity|].
  cbn [sub_from]. pose proof (H "" (String c s) eq_refl) as H0.
  cbn [rev_onto] in H0. rewrite H0. f_equal.
  apply IH. intros u1 u2 E. apply (H (String c u1) u2). cbn [append]. now rewrite E.
Qed.

Lemma sub_from_body (body tail : string) :
  forall before, no_CR body = true ->
    sub_from prompt_pattern "" before (body ++ tail) 0 =
    body ++ sub_from prompt_pattern "" (rev_onto body before) tail 0.
Proof.
  induction body as [|c body IH]; intros before H; [reflexivity|].
  unfold no_CR in H. cbn [forallb_string] in H. apply andb_prop in H.
  destruct H as [Hc Hb]. apply negb_true_iff in Hc.
  cbn [append sub_from]. rewrite match_here_prompt_other by exact Hc.
  f_equal. apply IH. exact Hb.
Qed.

Lemma sub_from_terminator (before p : string) :
  In p prompts -> sub_from prompt_pattern "" before (terminator p) 0 = "".
Proof. intros [<- | [<- | [<- | []]]]; reflexivity. Qed.

Lemma read_spec (w : world) (lines : list string) (later : list (list string)) :
  incoming w = lines :: later ->
  read w =
  (Returned (re_sub prompt_pattern "" (String.concat (str1 LF) lines)),
   mkWorld (port w) (baudrate w) (timeout w) (written w) later (slept w)).
Proof. intros H. unfold read, bind, readlines. rewrite H. reflexivity. Qed.

(** ** Calls *)

Lemma ask_returns (command : string) (w : world) :
  exists reply w', ask command w = (Returned reply, w').
Proof.
  unfold ask, read, write, bind, connection_write, readlines, ret.
  cbn [incoming]. destruct (incoming w); eauto.
Qed.

Lemma getPosition_after_ask (w w' : world) (reply : string) :
  ask "TPE" w = (Returned reply, w') ->
  getPosition w =
  match re_search TPE_pattern reply with
  | None => (Returned None, w')
  | Some matched =>
      match int_of_str matched with
      | Some z => (Returned (Some z), w')
      | None => (Raised ValueError, w')
      end
  end.
Proof.
  intros H. unfold getPosition. unfold bind at 1. rewrite H.
  destruct (re_search TPE_pattern reply) as [m|]; [|reflexivity].
  unfold bind, int_of_match. destruct (int_of_str m); reflexivity.
Qed.

Lemma getPosition_returns (w : world) :
  exists r w', getPosition w = (Returned r, w').
Proof.
  destruct (ask_returns "TPE" w) as [reply [w' H]].
  rewrite (getPosition_after_ask _ _ _ H).
  destruct (re_search TPE_pattern reply) as [m|] eqn:S; [|eauto].
  apply TPE_some_sound in S.
  destruct S as [pre [sgn [ds [rest [_ [-> [_ [Hs [Hne [Hd _]]]]]]]]]].
  rewrite int_of_signed by assumption. eauto.
Qed.

Lemma write_spec (command : string) (w : world) :
  write command w = (Returned tt, after_writing w [command]).
Proof. reflexivity. Qed.

Lemma after_writing_app (w : world) (a b : list string) :
  after_writing (after_writing w a) b = after_writing w (a ++ b).
Proof.
  unfold after_writing. cbn [port baudrate timeout written incoming slept].
  now rewrite map_app, app_assoc.
Qed.

Ltac run_writes :=
  repeat (rewrite write_spec; cbv beta iota); rewrite ?after_writing_app.

Lemma float_of_int_1 : float_of_int 1 = Returned 1%float.
Proof. vm_compute. reflexivity. Qed.

Lemma float_of_int_3 : float_of_int 3 = Returned 3%float.
Proof. vm_compute. reflexivity. Qed.

Lemma str_float_1 (float_digits : float -> string) :
  str_float float_digits 1 = "1.0".
Proof. vm_compute. reflexivity. Qed.

Lemma str_float_3 (float_digits : float -> string) :
  str_float float_digits 3 = "3.0".
Proof. vm_compute. reflexivity. Qed.

Lemma setDefaults_spec (float_digits : float -> string) (w : world) :
  setDefaults float_digits w =
  (Returned tt,
   after_writing w ["ECHO0"; "LH0"; "MA1"; "MC0"; "AA1.0"; "A1.0"; "V3.0"]).
Proof.
  unfold setDefaults, setAverageAcceleration, setAcceleration, setVelocity.
  cbn [float_of_number]. rewrite float_of_int_1, float_of_int_3.
  unfold setEcho, setHardwareLimits, setAbsolutePosition, lift, bind.
  cbn [default]. cbv beta iota. rewrite str_float_1, str_float_3.
  run_writes. reflexivity.
Qed.

(** ** Main results *)

(** C1.  [reset()] writes [RESET], sleeps five seconds and then stops
    with [AttributeError]: it calls [setDefault], a name the class does
    not define ([setDefaults] is the method).  None of the default
    configuration commands and no [DRIVE1] is written. *)
Theorem reset_raises_AttributeError (float_digits : float -> string) (w : world) :
  reset float_digits w =
  (Raised AttributeError, after_sleeping (after_writing w ["RESET"]) 5).
Proof. reflexivity. Qed.

(** With the defined name in place of [setDefault] the sequence is the
    documented one. *)
Lemma reset_with_setDefaults (float_digits : float -> string) (w : world) :
  (write "RESET" ;; sleep 5 ;;
   call float_digits "setDefaults" ;; call float_digits "enable") w =
  (Returned tt,
   after_writing (after_sleeping (after_writing w ["RESET"]) 5)
     ["ECHO0"; "LH0"; "MA1"; "MC0"; "AA1.0"; "A1.0"; "V3.0"; "DRIVE1"]).
Proof.
  unfold bind at 1. rewrite write_spec.
  unfold bind at 1. change (sleep 5 (after_writing w ["RESET"]))
    with (Returned tt, after_sleeping (after_writing w ["RESET"]) 5).
  change (call float_digits "setDefaults") with (setDefaults float_digits).
  change (call float_digits "enable") with enable.
  unfold bind. rewrite setDefaults_spec. unfold enable. run_writes.
  reflexivity.
Qed.

(** C8.  Construction opens the connection at 9600 baud with a timeout
    of half a second and writes the default configuration: [ECHO0],
    [LH0], [MA1], [MC0], [AA1.0], [A1.0], [V3.0], in this order. *)
Theorem init_applies_defaults (float_digits : float -> string)
    (p : string) (replies : list (list string)) :
  __init__ float_digits p replies =
  (Returned tt,
   mkWorld p 9600 0.5%float
     (map terminated ["ECHO0"; "LH0"; "MA1"; "MC0"; "AA1.0"; "A1.0"; "V3.0"])
     replies 0).
Proof. unfold __init__. rewrite setDefaults_spec. reflexivity. Qed.

(** C10.  Called without an argument, [setEcho] writes [ECHO0] and
    [setHardwareLimits] writes [LH0]: the parameter defaults to false. *)
Theorem omitted_enable_disables (w : world) :
  setEcho None w = (Returned tt, after_writing w ["ECHO0"]) /\
  setHardwareLimits None w = (Returned tt, after_writing w ["LH0"]) /\
  setEcho None = setEcho (Some false) /\
  setHardwareLimits None = setHardwareLimits (Some false).
Proof. repeat split. Qed.

(** C7.  [setSoftwareLimits(p, n)] on integers writes [LSPOS<p>] and then
    [LSNEG<n>] and nothing else, the arguments in decimal notation;
    [setSoftwareLimits(100, -50)] writes [LSPOS100], [LSNEG-50]. *)
Theorem setSoftwareLimits_emits (p n : Z) (w : world) :
  setSoftwareLimits (PyInt p) (PyInt n) w =
  (Returned tt, after_writing w ["LSPOS" ++ str_int p; "LSNEG" ++ str_int n]) /\
  int_of_str (str_int p) = Some p /\
  int_of_str (str_int n) = Some n /\
  setSoftwareLimits (PyInt 100) (PyInt (-50)) w =
  (Returned tt, after_writing w ["LSPOS100"; "LSNEG-50"]).
Proof.
  repeat split; try apply int_of_str_str_int.
  - unfold setSoftwareLimits, bind, lift, int_of_number.
    run_writes. reflexivity.
  - unfold setSoftwareLimits, bind, lift, int_of_number.
    run_writes. reflexivity.
Qed.

(** The factor is not [90/4000]. *)
Lemma degreesPerCount_not_90_per_4000 :
  ~ (degreesPerCount = 0.00045%float /\ degreesPerCount = (90 / 4000)%float).
Proof.
  intros [_ H]. apply (f_equal Prim2SF) in H. vm_compute in H. discriminate H.
Qed.

(** C3.  The conversion factor is [0.00045] degrees per count, that is
    90 degrees per 200,000 counts (or 360 per 800,000): 200,000 counts
    convert to 90 degrees and 4000 counts to 1.8 degrees, in [getAngle]
    and [getAngleError] as well as, the other way round, in [setAngle]. *)
Theorem degreesPerCount_value :
  degreesPerCount = 0.00045%float /\
  degreesPerCount = (90 / 200000)%float /\
  degreesPerCount = (360 / 800000)%float /\
  (200000 * degreesPerCount)%float = 90%float /\
  (4000 * degreesPerCount)%float = 1.8%float /\
  pow_neg1 degreesPerCount = (200000 / 90)%float /\
  fst (getAngle (replying ["TPE200000" ++ terminator ">"]))
    = Returned (Some 90%float) /\
  fst (getAngleError (replying ["TPER4000" ++ terminator ">"]))
    = Returned (Some 1.8%float) /\
  written (snd (setAngle 90 silent)) = [terminated "D200000"].
Proof. repeat split; vm_compute; reflexivity. Qed.

(** Truncating differs from rounding: [0.0004] degrees are 0.89 counts. *)
Lemma setAngle_is_not_rounding :
  ~ (forall a w, written (snd (setAngle a w)) = written (snd (setAngle_rounding a w))).
Proof.
  intros H. specialize (H 0.0004%float silent). vm_compute in H. discriminate H.
Qed.

Lemma truncate_toward_zero (s : bool) (m : positive) (e : Z) :
  (0 <= e -> Z.abs (truncate s m e) = Zpos m * 2 ^ e) /\
  (e < 0 -> Z.abs (truncate s m e) * 2 ^ (- e) <= Zpos m
            < (Z.abs (truncate s m e) + 1) * 2 ^ (- e)) /\
  (if s then truncate s m e <= 0 else 0 <= truncate s m e).
Proof.
  unfold truncate. destruct (Z.leb_spec 0 e) as [He|He].
  - assert (0 < 2 ^ e) by (apply Z.pow_pos_nonneg; lia).
    repeat split; try lia; destruct s; nia.
  - assert (Hp : 0 < 2 ^ (- e)) by (apply Z.pow_pos_nonneg; lia).
    pose proof (Z.div_mod (Zpos m) (2 ^ (- e)) ltac:(lia)) as Hdm.
    pose proof (Z.mod_pos_bound (Zpos m) (2 ^ (- e)) Hp) as Hmod.
    assert (Hq : 0 <= Zpos m / 2 ^ (- e)) by (apply Z.div_pos; lia).
    repeat split; try lia.
    + destruct s; rewrite ?Z.abs_opp, Z.abs_eq by lia; nia.
    + destruct s; rewrite ?Z.abs_opp, Z.abs_eq by lia; nia.
    + destruct s; lia.
Qed.

(** C2.  [setAngle(a)] writes what [setPosition] writes for the product
    [a * 0.00045**-1] cut to an integer toward zero, not rounded to the
    nearest one: a zero product gives 0, any other finite product
    [(-1)^s * m * 2^e] the integer part of [m * 2^e] with the sign of
    the product.  [setAngle(1.8)] writes [D4000]. *)
Theorem setAngle_truncates (a : float) (w : world) :
  finite_float (a * pow_neg1 degreesPerCount)%float = true ->
  exists c,
    int_of_float (a * pow_neg1 degreesPerCount)%float = Returned c /\
    setAngle a w = setPosition (PyInt c) w /\
    setAngle a w = (Returned tt, after_writing w ["D" ++ str_int c]) /\
    (forall s, Prim2SF (a * pow_neg1 degreesPerCount)%float = S754_zero s -> c = 0) /\
    (forall s m e,
       Prim2SF (a * pow_neg1 degreesPerCount)%float = S754_finite s m e ->
       c = truncate s m e /\
       (0 <= e -> Z.abs c = Zpos m * 2 ^ e) /\
       (e < 0 -> Z.abs c * 2 ^ (- e) <= Zpos m < (Z.abs c + 1) * 2 ^ (- e)) /\
       (if s then c <= 0 else 0 <= c)) /\
    setAngle 1.8%float w = (Returned tt, after_writing w ["D4000"]) /\
    setAngle 0%float w = (Returned tt, after_writing w ["D0"]).
Proof.
  intros H.
  assert (F : int_of_float (1.8 * pow_neg1 degreesPerCount)%float = Returned 4000)
    by (vm_compute; reflexivity).
  assert (F0 : int_of_float (0 * pow_neg1 degreesPerCount)%float = Returned 0)
    by (vm_compute; reflexivity).
  assert (T : setAngle 1.8%float w = (Returned tt, after_writing w ["D4000"]) /\
              setAngle 0%float w = (Returned tt, after_writing w ["D0"])).
  { unfold setAngle. rewrite F, F0. split; reflexivity. }
  unfold finite_float in H. unfold setAngle at 1 2. unfold int_of_float.
  destruct (Prim2SF (a * pow_neg1 degreesPerCount)%float) as [s|s| |s m e] eqn:E;
    try discriminate H.
  - exists 0. repeat split; try tauto; intros; discriminate.
  - exists (truncate s m e).
    split; [reflexivity|]. split; [reflexivity|]. split; [reflexivity|].
    split; [intros ? D; discriminate D|]. split; [|exact T].
    intros s' m' e' D. injection D as <- <- <-.
    pose proof (truncate_toward_zero s m e) as [H1 [H2 H3]]. auto.
Qed.

Lemma setAngle_truncates_witness :
  exists c,
    int_of_float (0 * pow_neg1 degreesPerCount)%float = Returned c /\
    setAngle 0%float silent = (Returned tt, after_writing silent ["D" ++ str_int c]).
Proof.
  destruct (setAngle_truncates 0%float silent) as [c [H1 [_ [H2 _]]]].
  - vm_compute. reflexivity.
  - exists c. split; [exact H1 | exact H2].
Defined.

Lemma ask_spec (command : string) (w : world) :
  ask command w =
  (Returned (re_sub prompt_pattern "" (String.concat (str1 LF) (hd [] (incoming w)))),
   after_reading (after_writing w [command])).
Proof.
  unfold ask, bind. rewrite write_spec. unfold read, bind, readlines, ret.
  unfold after_reading, after_writing.
  cbn [port baudrate timeout written incoming slept].
  destruct (incoming w) as [|lines later]; reflexivity.
Qed.

(** The number need not follow [TPE] in what the instrument sent: with
    the ending of the reply removed, what came after it moves up. *)
Lemma getPosition_reads_across_ending :
  ~ (forall lines,
       no_token (String.concat (str1 LF) lines) ->
       fst (getPosition (replying lines)) = Returned None).
Proof.
  intros H. specialize (H ["TPE" ++ terminator ">" ++ "5"]).
  assert (N : no_token (String.concat (str1 LF) ["TPE" ++ terminator ">" ++ "5"])).
  { apply TPE_none_sound. vm_compute. reflexivity. }
  apply H in N. vm_compute in N. discriminate N.
Qed.

(** C4.  [getPosition()] always returns, and what it parses is the reply
    as [read()] hands it over: the lines the connection delivers, joined
    with a newline, with every [\r\n\n], optional prompt and space taken
    out.  When that text holds a [TPE] directly followed by an
    optionally signed decimal integer, the result is the integer after
    the first such [TPE]; when it holds none, the result is [None]; one
    of the two is always the case.  For a reply that is a text without
    carriage return followed by one ending, and for a reply without any
    ending, the text parsed is the text sent. *)
Theorem getPosition_reads_first_token (w : world) :
  let raw := String.concat (str1 LF) (hd [] (incoming w)) in
  let reply := re_sub prompt_pattern "" raw in
  let w' := after_reading (after_writing w ["TPE"]) in
  (forall z, first_token reply z -> getPosition w = (Returned (Some z), w')) /\
  (no_token reply -> getPosition w = (Returned None, w')) /\
  (no_token reply \/ exists z, first_token reply z) /\
  (forall body p, no_CR body = true -> In p prompts ->
     raw = body ++ terminator p -> reply = body) /\
  (~ has_terminator raw -> reply = raw).
Proof.
  intros raw reply w'.
  pose proof (ask_spec "TPE" w) as H. fold raw in H. fold reply in H. fold w' in H.
  rewrite (getPosition_after_ask _ _ _ H).
  assert (F : forall z, first_token reply z ->
            match re_search TPE_pattern reply with
            | None => (Returned None, w')
            | Some matched =>
                match int_of_str matched with
                | Some z => (Returned (Some z), w')
                | None => (Raised ValueError, w')
                end
            end = (Returned (Some z), w')).
  { intros z [pre [sgn [ds [rest [-> [Hno [Hs [Hne [Hd [Hr ->]]]]]]]]]].
    rewrite TPE_found by assumption. now rewrite int_of_signed by assumption. }
  split; [exact F|].
  assert (G : (no_token reply ->
               match re_search TPE_pattern reply with
               | None => (Returned None, w')
               | Some matched =>
                   match int_of_str matched with
                   | Some z => (Returned (Some z), w')
                   | None => (Raised ValueError, w')
                   end
               end = (Returned None, w')) /\
              (no_token reply \/ exists z, first_token reply z)).
  { destruct (re_search TPE_pattern reply) as [matched|] eqn:S.
    - pose proof S as S'. apply TPE_some_sound in S'.
      destruct S' as [pre [sgn [ds [rest [E [Em [Hno [Hs [Hne [Hd Hr]]]]]]]]]].
      assert (Hz : first_token reply (signed sgn (digits_value 0 ds))).
      { exists pre, sgn, ds, rest. repeat split; assumption. }
      split; [|right; eauto].
      intros Hnone. exfalso.
      destruct ds as [|d ds]; [congruence|].
      cbn [forallb_string] in Hd. apply andb_prop in Hd. destruct Hd as [Hc _].
      apply (Hnone pre sgn d (ds ++ rest) Hs Hc). exact E.
    - apply TPE_none_sound in S. split; [reflexivity | left; exact S]. }
  destruct G as [G1 G2]. split; [exact G1|]. split; [exact G2|]. split.
  - intros body p Hb Hp E. unfold reply. rewrite E. unfold re_sub.
    rewrite sub_from_body by exact Hb.
    rewrite sub_from_terminator by exact Hp. apply append_nil_r.
  - intros Hno. unfold reply, re_sub. apply sub_from_no_match.
    intros u1 u2 E.
    destruct (match_here (rev_onto u1 "") prompt_pattern u2) as [[m rest]|] eqn:M;
      [|reflexivity].
    exfalso. apply Hno. apply match_here_prompt_some in M.
    destruct M as [p [Hp [-> _]]]. exists u1, p, rest. auto.
Qed.

(** The examples of the specification: [TPE-120] reads as [-120], a reply
    with [TPER] and no digits or with no [TPE] at all reads as [None]. *)
Example getPosition_examples :
  let reply text := [[text ++ String CR (String LF (String LF "> "))]] in
  fst (getPosition (SerialAdapter "COM1" 9600 0.5%float (reply "TPE-120")))
    = Returned (Some (-120)) /\
  fst (getPosition (SerialAdapter "COM1" 9600 0.5%float (reply "TPER")))
    = Returned None /\
  fst (getPosition (SerialAdapter "COM1" 9600 0.5%float (reply "OK")))
    = Returned None /\
  fst (getPosition silent) = Returned None.
Proof. vm_compute. repeat split. Qed.

(** C6.  [isMoving()] returns true exactly when [getPosition()], on the
    same reply, returns [None], and false when it returns an integer;
    both leave the connection in the same state. *)
Theorem isMoving_iff_no_position (w : world) :
  exists w',
    (getPosition w = (Returned None, w') /\ isMoving w = (Returned true, w')) \/
    (exists z, getPosition w = (Returned (Some z), w') /\
               isMoving w = (Returned false, w')).
Proof.
  destruct (getPosition_returns w) as [r [w' H]]. exists w'.
  unfold isMoving, bind. rewrite H. destruct r as [z|]; [right; eauto | left; auto].
Qed.

(** ** Normalizing a reply *)

(** A reply that ends right after [\r\n\n] keeps it. *)
Lemma read_keeps_bare_terminator :
  ~ (forall body,
       fst (read (replying [body ++ String CR (String LF (str1 LF))]))
       = Returned body).
Proof. intros H. specialize (H "OK"). vm_compute in H. discriminate H. Qed.

(** C5.  [read()] joins the lines with one newline and removes every
    [\r\n\n] that is followed by a space, with at most one prompt
    character ([>] or [?]) in between: the raw reply ["OK\r\n\n> "]
    becomes ["OK"], a text followed by such an ending becomes the text,
    and a reply that holds no such ending passes through unchanged. *)
Theorem read_normalizes (w : world) (lines : list string) (later : list (list string)) :
  incoming w = lines :: later ->
  let raw := String.concat (str1 LF) lines in
  let w' := mkWorld (port w) (baudrate w) (timeout w) (written w) later (slept w) in
  (raw = "OK" ++ terminator ">" -> read w = (Returned "OK", w')) /\
  (forall body p, no_CR body = true -> In p prompts ->
     raw = body ++ terminator p -> read w = (Returned body, w')) /\
  (~ has_terminator raw -> read w = (Returned raw, w')).
Proof.
  intros H raw w'. rewrite (read_spec _ _ _ H). fold raw. fold w'.
  assert (B : forall body p, no_CR body = true -> In p prompts ->
            re_sub prompt_pattern "" (body ++ terminator p) = body).
  { intros body p Hb Hp. unfold re_sub.
    rewrite sub_from_body by exact Hb.
    rewrite sub_from_terminator by exact Hp. apply append_nil_r. }
  split; [|split].
  - intros ->. rewrite (B "OK" ">"); [reflexivity | reflexivity | cbn; auto].
  - intros body p Hb Hp ->. now rewrite B.
  - intros Hno. unfold re_sub. rewrite sub_from_no_match; [reflexivity|].
    intros u1 u2 E.
    destruct (match_here (rev_onto u1 "") prompt_pattern u2) as [[m rest]|] eqn:M;
      [|reflexivity].
    exfalso. apply Hno. apply match_here_prompt_some in M.
    destruct M as [p [Hp [-> _]]]. exists u1, p, rest. auto.
Qed.

Lemma read_normalizes_witness :
  read (replying ["OK" ++ terminator ">"]) =
  (Returned "OK", SerialAdapter "COM1" 9600 0.5%float []).
Proof.
  apply (read_normalizes (replying ["OK" ++ terminator ">"])
           ["OK" ++ terminator ">"] [] eq_refl).
  reflexivity.
Defined.

(** ** Texts on the wire *)

Lemma decimal_char_not_CR (c : ascii) :
  is_decimal_char c = true -> negb (Ascii.eqb CR c) = true.
Proof.
  intros H. destruct (Ascii.eqb_spec CR c) as [<-|]; [|reflexivity].
  vm_compute in H. discriminate H.
Qed.

Lemma upper_not_CR (c : ascii) :
  is_upper c = true -> negb (Ascii.eqb CR c) = true.
Proof.
  intros H. destruct (Ascii.eqb_spec CR c) as [<-|]; [|reflexivity].
  vm_compute in H. discriminate H.
Qed.

Lemma decimal_no_CR (s : string) :
  forallb_string is_decimal_char s = true -> no_CR s = true.
Proof.
  unfold no_CR. induction s as [|c s IH]; cbn [forallb_string]; [reflexivity|].
  intros H. apply andb_prop in H. destruct H as [Hc Hs].
  now rewrite (decimal_char_not_CR c Hc), IH.
Qed.

Lemma no_CR_app (a b : string) : no_CR (a ++ b) = no_CR a && no_CR b.
Proof. apply forallb_string_app. Qed.

Lemma forallb_skip_upper (p : ascii -> bool) (s : string) :
  forallb_string p s = true -> forallb_string p (skip_upper s) = true.
Proof.
  induction s as [|c s IH]; cbn [skip_upper]; [reflexivity|].
  intros H. destruct (is_upper c); [|exact H].
  cbn [forallb_string] in H. apply andb_prop in H. now apply IH.
Qed.

Lemma is_command_mnemonic (m t : string) :
  m <> "" -> forallb_string is_upper m = true ->
  forallb_string is_decimal_char t = true ->
  is_command (m ++ t) = true /\ no_CR (m ++ t) = true.
Proof.
  intros Hne Hm Ht. split.
  - destruct m as [|c m]; [congruence|]. cbn [append is_command].
    cbn [forallb_string] in Hm. apply andb_prop in Hm. destruct Hm as [Hc Hm].
    rewrite Hc. cbn [andb skip_upper]. rewrite Hc.
    clear Hne Hc. induction m as [|d m IH]; cbn [append].
    + now apply forallb_skip_upper.
    + cbn [forallb_string] in Hm. apply andb_prop in Hm. destruct Hm as [Hd Hm].
      cbn [skip_upper]. rewrite Hd. now apply IH.
  - rewrite no_CR_app, (decimal_no_CR t Ht), andb_true_r. clear Hne.
    unfold no_CR. induction m as [|c m IH]; [reflexivity|].
    cbn [forallb_string] in *. apply andb_prop in Hm. destruct Hm as [Hc Hm].
    now rewrite (upper_not_CR c Hc), IH.
Qed.

Lemma without_final_CR_terminated (cmd : string) :
  without_final_CR (terminated cmd) = Some cmd.
Proof.
  unfold terminated. induction cmd as [|c cmd IH]; [reflexivity|].
  cbn [append without_final_CR]. rewrite IH.
  destruct (cmd ++ str1 CR) eqn:E; [|reflexivity].
  destruct cmd; discriminate E.
Qed.

Lemma command_line_mnemonic (m t : string) :
  m <> "" -> forallb_string is_upper m = true ->
  forallb_string is_decimal_char t = true ->
  is_command_line (terminated (m ++ t)) = true.
Proof.
  intros Hne Hm Ht. unfold is_command_line.
  rewrite without_final_CR_terminated.
  destruct (is_command_mnemonic m t Hne Hm Ht) as [-> ->]. reflexivity.
Qed.

Lemma one_CR_of_no_CR (cmd : string) :
  no_CR cmd = true -> ends_with_one_CR (terminated cmd) = true.
Proof.
  intros H. unfold ends_with_one_CR. now rewrite without_final_CR_terminated.
Qed.

Lemma command_line_one_CR (t : string) :
  is_command_line t = true -> ends_with_one_CR t = true.
Proof.
  unfold is_command_line, ends_with_one_CR.
  destruct (without_final_CR t); [|discriminate].
  intros H. apply andb_prop in H. tauto.
Qed.

(** ** Float arguments as text *)

Section FloatDigits.

Variable float_digits : float -> string.
Hypothesis float_digits_decimal :
  forall x, forallb_string is_decimal_char (float_digits x) = true.

Lemma str_float_decimal (x : float) :
  finite_float x = true ->
  forallb_string is_decimal_char (str_float float_digits x) = true.
Proof.
  unfold finite_float, str_float.
  destruct (Prim2SF x) as [s|s| |s m e]; try discriminate; intros _.
  - destruct s; reflexivity.
  - destruct ((if 0 <=? e then true else Zpos m mod 2 ^ (- e) =? 0)
              && (Z.abs (truncate s m e) <? 10 ^ 12)).
    + rewrite !forallb_string_app.
      rewrite (digits_decimal _ (str_nat_digits _)).
      destruct s; reflexivity.
    + apply float_digits_decimal.
Qed.

Lemma str_float_no_CR (x : float) : no_CR (str_float float_digits x) = true.
Proof.
  destruct (finite_float x) eqn:F.
  - apply decimal_no_CR, str_float_decimal, F.
  - unfold finite_float in F. unfold str_float.
    destruct (Prim2SF x) as [s|s| |s m e]; try discriminate;
      try destruct s; reflexivity.
Qed.

End FloatDigits.

(** ** What a call writes *)

Section Emits.

Variable P : string -> Prop.

Lemma emits_ret {A : Type} (a : A) : emits P (ret a).
Proof. intros w. exists []. cbn. now rewrite app_nil_r. Qed.

Lemma emits_raise {A : Type} (e : exn) : emits P (@raise A e).
Proof. intros w. exists []. cbn. now rewrite app_nil_r. Qed.

Lemma emits_lift {A : Type} (r : outcome A) : emits P (lift r).
Proof. intros w. exists []. cbn. now rewrite app_nil_r. Qed.

Lemma emits_sleep (seconds : Z) : emits P (sleep seconds).
Proof. intros w. exists []. cbn. now rewrite app_nil_r. Qed.

Lemma emits_readlines : emits P readlines.
Proof.
  intros w. exists []. unfold readlines.
  destruct (incoming w); cbn; now rewrite app_nil_r.
Qed.

Lemma emits_write (command : string) :
  P (terminated command) -> emits P (write command).
Proof. intros H w. exists [terminated command]. cbn. auto. Qed.

Lemma emits_bind {A B : Type} (c : M A) (k : A -> M B) :
  emits P c -> (forall a, emits P (k a)) -> emits P (bind c k).
Proof.
  intros Hc Hk w. unfold bind. destruct (Hc w) as [t1 [E1 F1]].
  destruct (c w) as [[a|e] w1]; cbn [snd] in E1.
  - destruct (Hk a w1) as [t2 [E2 F2]]. exists (t1 ++ t2)%list.
    rewrite E2, E1, app_assoc. split; [reflexivity|].
    apply Forall_app. auto.
  - exists t1. auto.
Qed.

End Emits.

Lemma emits_weaken (P Q : string -> Prop) {A : Type} (c : M A) :
  (forall t, P t -> Q t) -> emits P c -> emits Q c.
Proof.
  intros HPQ Hc w. destruct (Hc w) as [texts [E F]]. exists texts.
  split; [exact E|]. revert F. apply Forall_impl. exact HPQ.
Qed.

Ltac emit :=
  repeat first
    [ apply emits_bind; [|intros ?]
    | apply emits_ret
    | apply emits_raise
    | apply emits_lift
    | apply emits_sleep
    | apply emits_readlines
    | apply emits_write
    | match goal with
      | |- emits _ (match ?x with _ => _ end) => destruct x
      end ].

Ltac numeral :=
  first [ reflexivity
        | apply (command_line_mnemonic "D"); [discriminate | reflexivity | apply str_int_decimal]
        | apply (command_line_mnemonic "LSPOS"); [discriminate | reflexivity | apply str_int_decimal]
        | apply (command_line_mnemonic "LSNEG"); [discriminate | reflexivity | apply str_int_decimal] ].

(** The operations without a float argument write command lines only. *)
Lemma emits_command_lines (float_digits : float -> string) (op : operation) :
  match op with
  | SetAcceleration _ | SetAverageAcceleration _ | SetVelocity _ => True
  | _ => emits (fun t => is_command_line t = true) (perform float_digits op)
  end.
Proof.
  destruct op; try exact I; cbn [perform];
    unfold reset, enable, disable, discard, status, isMoving, getAngle,
      getAngleError, setAngle, getPosition, getPositionError, int_of_match,
      setPosition, move, stop, kill, setAbsolutePosition, setRelativePosition,
      setHardwareLimits, setSoftwareLimits, setEcho, ask, read;
    try change (call float_digits "setDefault") with (@raise unit AttributeError);
    try (intros w; rewrite setDefaults_spec; eexists; split; [reflexivity|];
         repeat constructor);
    emit; numeral.
Qed.

Lemma float_of_number_finite (a : number) (x : float) :
  float_of_number a = Returned x -> finite_number a = true -> finite_float x = true.
Proof.
  destruct a as [z|y]; cbn [float_of_number finite_number].
  - unfold float_of_int.
    destruct (finite_float (SF2Prim (binary_normalize prec emax z 0 false))) eqn:F;
      [|discriminate].
    intros H _. injection H as <-. exact F.
  - intros H. injection H as <-. auto.
Qed.

Lemma emits_float_command (float_digits : float -> string) (m : string) (a : number) :
  (forall x, forallb_string is_decimal_char (float_digits x) = true) ->
  m <> "" -> forallb_string is_upper m = true ->
  emits (fun t => ends_with_one_CR t = true /\
                  (finite_number a = true -> is_command_line t = true))
        (x <- lift (float_of_number a) ;; write (m ++ str_float float_digits x)).
Proof.
  intros Hfd Hne Hm w. unfold bind, lift.
  destruct (float_of_number a) as [x|e] eqn:F.
  - exists [terminated (m ++ str_float float_digits x)].
    split; [reflexivity|]. constructor; [|constructor]. split.
    + apply one_CR_of_no_CR. rewrite no_CR_app.
      rewrite (str_float_no_CR float_digits Hfd x), andb_true_r.
      destruct (is_command_mnemonic m "" Hne Hm eq_refl) as [_ H].
      now rewrite append_nil_r in H.
    + intros Hfin. apply command_line_mnemonic; try assumption.
      apply str_float_decimal; [exact Hfd|].
      exact (float_of_number_finite a x F Hfin).
  - exists []. cbn. now rewrite app_nil_r.
Qed.

(** An acceleration that is not a number goes out as [Anan]. *)
Lemma nan_is_no_decimal_argument :
  ~ (forall float_digits op,
       Forall (fun t => is_command_line t = true)
              (written (snd (perform float_digits op silent)))).
Proof.
  intros H.
  specialize (H (fun _ => "0.5") (SetAcceleration (PyFloat nan))).
  vm_compute in H. inversion H as [|t ts H1 _]. discriminate H1.
Qed.

(** C9.  Every text an operation writes ends with a carriage return and
    holds no other.  Unless an acceleration or velocity argument is an
    infinity or a NaN, the text before the carriage return is a
    mnemonic of capital letters followed by nothing or by a decimal
    argument. *)
Theorem written_texts_are_command_lines
    (float_digits : float -> string) (op : operation) (w : world) :
  (forall x, forallb_string is_decimal_char (float_digits x) = true) ->
  exists texts : list string,
    written (snd (perform float_digits op w)) = (written w ++ texts)%list /\
    Forall (fun t => ends_with_one_CR t = true) texts /\
    (finite_arguments op = true ->
     Forall (fun t => is_command_line t = true) texts).
Proof.
  intros Hfd.
  assert (G : emits (fun t => ends_with_one_CR t = true /\
                       (finite_arguments op = true -> is_command_line t = true))
                    (perform float_digits op)).
  { pose proof (emits_command_lines float_digits op) as H.
    destruct op;
      try (revert H; apply emits_weaken; intros t Ht; split;
           [apply command_line_one_CR; exact Ht | intros _; exact Ht]).
    - apply (emits_float_command float_digits "A"); [exact Hfd | discriminate | reflexivity].
    - apply (emits_float_command float_digits "AA"); [exact Hfd | discriminate | reflexivity].
    - apply (emits_float_command float_digits "V"); [exact Hfd | discriminate | reflexivity]. }
  destruct (G w) as [texts [E F]]. exists texts. split; [exact E|]. split.
  - revert F. apply Forall_impl. tauto.
  - intros Hfin. revert F. apply Forall_impl. intros t [_ Ht]. exact (Ht Hfin).
Qed.

Lemma written_texts_are_command_lines_witness :
  exists texts : list string,
    written (snd (perform (fun _ => "0.5") (SetSoftwareLimits (PyInt 100) (PyFloat (-50.7))) silent))
    = (written silent ++ texts)%list /\
    Forall (fun t => ends_with_one_CR t = true) texts /\
    (finite_arguments (SetSoftwareLimits (PyInt 100) (PyFloat (-50.7))) = true ->
     Forall (fun t => is_command_line t = true) texts).
Proof.
  apply (written_texts_are_command_lines (fun _ => "0.5")).
  intros x. reflexivity.
Defined.

(** * Further properties *)

(** ** Tokens after any label *)

Lemma is_plain_spec (c : ascii) :
  is_plain c = true -> is_digit c = false /\ Ascii.eqb "-" c = false.
Proof.
  unfold is_plain. intros H. apply andb_prop in H. destruct H as [H1 H2].
  apply negb_true_iff in H1. apply negb_true_iff in H2. auto.
Qed.

Lemma match_here_label (label before s : string) :
  match_here before (token_pattern label) s =
  if String.prefix (rev_string label) before then signed_digits s else None.
Proof. apply match_here_token. Qed.

Lemma search_from_plain (label : string) (l : string) :
  forall before x,
    forallb_string is_plain l = true ->
    search_from (token_pattern label) before (l ++ x) =
    search_from (token_pattern label) (rev_onto l before) x.
Proof.
  induction l as [|c l IH]; intros before x H; [reflexivity|].
  cbn [forallb_string] in H. apply andb_prop in H. destruct H as [Hc Hl].
  destruct (is_plain_spec c Hc) as [H1 H2].
  cbn [append search_from rev_onto]. rewrite match_here_label.
  rewrite signed_digits_letter by assumption.
  destruct (String.prefix (rev_string label) before); now apply IH.
Qed.

Lemma label_positions_before (c : ascii) (label pre v : string) :
  is_plain c = true ->
  no_token_after (String c label) pre ->
  forall u1 u2, pre = u1 ++ u2 -> u2 <> "" ->
    match_here (rev_onto u1 "") (token_pattern (String c label))
               (u2 ++ String c label ++ v) = None.
Proof.
  intros Hc Hno u1 u2 E Hne. rewrite match_here_label.
  destruct (String.prefix (rev_string (String c label)) (rev_onto u1 "")) eqn:P;
    [|reflexivity].
  apply signed_digits_none.
  destruct (token_start (u2 ++ String c label ++ v)) eqn:T; [exfalso | reflexivity].
  apply (prefix_rev_inv (String c label) u1) in P. destruct P as [x ->].
  destruct (is_plain_spec c Hc) as [H1 H2].
  cbn [append] in T.
  apply (token_start_before_letter u2 c (label ++ v)) in T; [| exact H1 | exact H2].
  destruct T as [sgn [d [v' [Hs [Hd ->]]]]].
  apply (Hno x sgn d v' Hs Hd). rewrite E. now rewrite append_assoc.
Qed.

Lemma label_found (c : ascii) (label pre sgn ds rest : string) :
  forallb_string is_plain (String c label) = true ->
  no_token_after (String c label) pre -> sgn = "" \/ sgn = "-" -> ds <> "" ->
  forallb_string is_digit ds = true -> starts_with_digit rest = false ->
  re_search (token_pattern (String c label))
            (pre ++ String c label ++ sgn ++ ds ++ rest) = Some (sgn ++ ds).
Proof.
  intros Hl Hno Hs Hne Hd Hr. unfold re_search.
  pose proof Hl as Hl'. cbn [forallb_string] in Hl'.
  apply andb_prop in Hl'. destruct Hl' as [Hc _].
  rewrite search_from_skip by (apply label_positions_before; assumption).
  rewrite search_from_plain by exact Hl.
  apply (search_from_here _ _ _ _ rest).
  rewrite match_here_label, rev_onto_spec, prefix_app.
  now apply signed_digits_run.
Qed.

Lemma label_none_sound (label reply : string) :
  re_search (token_pattern label) reply = None -> no_token_after label reply.
Proof.
  intros H u sgn d v Hs Hd E.
  pose proof (search_from_none _ _ _ H (u ++ label) (sgn ++ String d v)) as N.
  rewrite match_here_label in N.
  change (rev_onto (u ++ label) "") with (rev_string (u ++ label)) in N.
  rewrite prefix_rev_app in N.
  assert (T : token_start (sgn ++ String d v) = true) by now apply token_start_signed.
  rewrite signed_digits_none in N. rewrite N in T; [discriminate|].
  rewrite E. now rewrite append_assoc.
Qed.

Lemma label_some_sound (label reply matched : string) :
  re_search (token_pattern label) reply = Some matched ->
  exists pre sgn ds rest,
    reply = pre ++ label ++ sgn ++ ds ++ rest /\ matched = sgn ++ ds /\
    no_token_after label pre /\ (sgn = "" \/ sgn = "-") /\ ds <> "" /\
    forallb_string is_digit ds = true /\ starts_with_digit rest = false.
Proof.
  intros H. apply search_from_some in H.
  destruct H as [u [v [rest [E [Hm Hearlier]]]]].
  rewrite match_here_label in Hm.
  destruct (String.prefix (rev_string label) (rev_onto u "")) eqn:P; [|discriminate].
  apply (prefix_rev_inv label u) in P. destruct P as [pre ->].
  apply signed_digits_some in Hm.
  destruct Hm as [sgn [ds [-> [-> [Hs [Hne [Hd Hr]]]]]]].
  exists pre, sgn, ds, rest. repeat split; auto.
  - rewrite E. now rewrite append_assoc.
  - intros x sgn' d v' Hs' Hd' Epre.
    pose proof (Hearlier (x ++ label) (sgn' ++ String d v' ++ label)) as N.
    rewrite match_here_label in N.
    change (rev_onto (x ++ label) "") with (rev_string (x ++ label)) in N.
    rewrite prefix_rev_app in N.
    assert (T : token_start ((sgn' ++ String d v' ++ label) ++ sgn ++ ds ++ rest) = true).
    { rewrite append_assoc. cbn [append]. now apply token_start_signed. }
    rewrite signed_digits_none in N. rewrite N in T; [discriminate | |].
    + rewrite Epre. rewrite !append_assoc. cbn [append].
      rewrite ?append_assoc. reflexivity.
    + destruct sgn'; discriminate.
Qed.

Lemma getPositionError_after_ask (w w' : world) (reply : string) :
  ask "TPER" w = (Returned reply, w') ->
  getPositionError w =
  match re_search TPER_pattern reply with
  | None => (Returned None, w')
  | Some matched =>
      match int_of_str matched with
      | Some z => (Returned (Some z), w')
      | None => (Raised ValueError, w')
      end
  end.
Proof.
  intros H. unfold getPositionError. unfold bind at 1. rewrite H.
  destruct (re_search TPER_pattern reply) as [m|]; [|reflexivity].
  unfold bind, int_of_match. destruct (int_of_str m); reflexivity.
Qed.

(** X1.  [getPositionError()] always returns, and what it parses is the
    reply as [read()] hands it over: the lines the connection delivers,
    joined with a newline, with every [\r\n\n], optional prompt and
    space taken out.  The result is the integer after the first [TPER]
    that is directly followed by an optionally signed decimal integer
    in that text, and [None] when the text holds no such [TPER]. *)
Theorem getPositionError_reads_first_token (w : world) :
  let raw := String.concat (str1 LF) (hd [] (incoming w)) in
  let reply := re_sub prompt_pattern "" raw in
  let w' := after_reading (after_writing w ["TPER"]) in
  (forall z, first_token_after "TPER" reply z ->
     getPositionError w = (Returned (Some z), w')) /\
  (no_token_after "TPER" reply -> getPositionError w = (Returned None, w')) /\
  (no_token_after "TPER" reply \/ exists z, first_token_after "TPER" reply z) /\
  (forall body p, no_CR body = true -> In p prompts ->
     raw = body ++ terminator p -> reply = body) /\
  (~ has_terminator raw -> reply = raw).
Proof.
  intros raw reply w'.
  pose proof (ask_spec "TPER" w) as H. fold raw in H. fold reply in H. fold w' in H.
  rewrite (getPositionError_after_ask _ _ _ H).
  change TPER_pattern with (token_pattern "TPER").
  assert (F : forall z, first_token_after "TPER" reply z ->
            match re_search (token_pattern "TPER") reply with
            | None => (Returned None, w')
            | Some matched =>
                match int_of_str matched with
                | Some z => (Returned (Some z), w')
                | None => (Raised ValueError, w')
                end
            end = (Returned (Some z), w')).
  { intros z [pre [sgn [ds [rest [-> [Hno [Hs [Hne [Hd [Hr ->]]]]]]]]]].
    rewrite (label_found "T" "PER") by (assumption || reflexivity).
    now rewrite int_of_signed by assumption. }
  split; [exact F|].
  assert (G : (no_token_after "TPER" reply ->
               match re_search (token_pattern "TPER") reply with
               | None => (Returned None, w')
               | Some matched =>
                   match int_of_str matched with
                   | Some z => (Returned (Some z), w')
                   | None => (Raised ValueError, w')
                   end
               end = (Returned None, w')) /\
              (no_token_after "TPER" reply \/
               exists z, first_token_after "TPER" reply z)).
  { destruct (re_search (token_pattern "TPER") reply) as [matched|] eqn:S.
    - pose proof S as S'. apply label_some_sound in S'.
      destruct S' as [pre [sgn [ds [rest [E [Em [Hno [Hs [Hne [Hd Hr]]]]]]]]]].
      assert (Hz : first_token_after "TPER" reply (signed sgn (digits_value 0 ds))).
      { exists pre, sgn, ds, rest. repeat split; assumption. }
      split; [|right; eauto].
      intros Hnone. exfalso.
      destruct ds as [|d ds]; [congruence|].
      cbn [forallb_string] in Hd. apply andb_prop in Hd. destruct Hd as [Hc _].
      apply (Hnone pre sgn d (ds ++ rest) Hs Hc). exact E.
    - apply label_none_sound in S. split; [reflexivity | left; exact S]. }
  destruct G as [G1 G2]. split; [exact G1|]. split; [exact G2|]. split.
  - intros body p Hb Hp E. unfold reply. rewrite E. unfold re_sub.
    rewrite sub_from_body by exact Hb.
    rewrite sub_from_terminator by exact Hp. apply append_nil_r.
  - intros Hno. unfold reply, re_sub. apply sub_from_no_match.
    intros u1 u2 E.
    destruct (match_here (rev_onto u1 "") prompt_pattern u2) as [[m rest]|] eqn:M;
      [|reflexivity].
    exfalso. apply Hno. apply match_here_prompt_some in M.
    destruct M as [p [Hp [-> _]]]. exists u1, p, rest. auto.
Qed.

(** ** Reading back what the instrument prints *)

Lemma re_sub_terminated (body p : string) :
  no_CR body = true -> In p prompts ->
  re_sub prompt_pattern "" (body ++ terminator p) = body.
Proof.
  intros Hb Hp. unfold re_sub.
  rewrite sub_from_body by exact Hb.
  rewrite sub_from_terminator by exact Hp. apply append_nil_r.
Qed.

Lemma ask_one_line (command body p : string) (w : world) (later : list (list string)) :
  no_CR body = true -> In p prompts ->
  incoming w = [body ++ terminator p] :: later ->
  ask command w = (Returned body, after_reading (after_writing w [command])).
Proof.
  intros Hb Hp Hin. unfold ask, bind. rewrite write_spec.
  rewrite (read_spec _ [body ++ terminator p] later) by exact Hin.
  cbn [String.concat]. rewrite re_sub_terminated by assumption.
  unfold after_reading, after_writing.
  cbn [port baudrate timeout written incoming slept]. now rewrite Hin.
Qed.

Lemma str_int_split (c : Z) :
  exists sgn ds,
    str_int c = sgn ++ ds /\ (sgn = "" \/ sgn = "-") /\ ds <> "" /\
    forallb_string is_digit ds = true.
Proof.
  unfold str_int. destruct (c <? 0).
  - exists "-", (str_nat (- c)). repeat split; auto.
    + apply str_nat_nonempty.
    + apply str_nat_digits.
  - exists "", (str_nat c). repeat split; auto.
    + apply str_nat_nonempty.
    + apply str_nat_digits.
Qed.

Lemma no_CR_reply (echo label : string) (c : Z) :
  no_CR echo = true -> no_CR label = true ->
  no_CR (echo ++ label ++ str_int c) = true.
Proof.
  intros He Hl. rewrite !no_CR_app, He, Hl.
  now rewrite (decimal_no_CR _ (str_int_decimal c)).
Qed.

(** X2.  When the instrument answers the position query with [TPE]
    followed by the decimal numeral of a count and the usual ending,
    [getPosition()] returns that count, whatever comes before [TPE] on
    the line as long as it holds no earlier token. *)
Theorem getPosition_reads_back (c : Z) (echo p : string) (w : world)
    (later : list (list string)) :
  no_CR echo = true -> no_token echo -> In p prompts ->
  incoming w = [echo ++ "TPE" ++ str_int c ++ terminator p] :: later ->
  getPosition w = (Returned (Some c), after_reading (after_writing w ["TPE"])).
Proof.
  intros He Hno Hp Hin.
  assert (A : ask "TPE" w =
              (Returned (echo ++ "TPE" ++ str_int c),
               after_reading (after_writing w ["TPE"]))).
  { apply (ask_one_line "TPE" (echo ++ "TPE" ++ str_int c) p w later).
    - now apply no_CR_reply.
    - exact Hp.
    - rewrite Hin. now rewrite !append_assoc. }
  rewrite (getPosition_after_ask _ _ _ A).
  destruct (str_int_split c) as [sgn [ds [E [Hs [Hne Hd]]]]].
  assert (S : re_search TPE_pattern (echo ++ "TPE" ++ str_int c) = Some (str_int c)).
  { rewrite E. rewrite <- (append_nil_r ds) at 1.
    now apply TPE_found. }
  rewrite S, int_of_str_str_int. reflexivity.
Qed.

Lemma getPosition_reads_back_witness :
  getPosition (replying ["TPE-120" ++ terminator ">"]) =
  (Returned (Some (-120)),
   after_reading (after_writing (replying ["TPE-120" ++ terminator ">"]) ["TPE"])).
Proof.
  apply (getPosition_reads_back (-120) "" ">" _ []).
  - reflexivity.
  - intros u sgn d v Hs Hd E. destruct u; discriminate E.
  - cbn. auto.
  - reflexivity.
Defined.

(** X3.  Likewise [getPositionError()] returns the count the instrument
    prints after [TPER]. *)
Theorem getPositionError_reads_back (c : Z) (echo p : string) (w : world)
    (later : list (list string)) :
  no_CR echo = true -> no_token_after "TPER" echo -> In p prompts ->
  incoming w = [echo ++ "TPER" ++ str_int c ++ terminator p] :: later ->
  getPositionError w =
  (Returned (Some c), after_reading (after_writing w ["TPER"])).
Proof.
  intros He Hno Hp Hin.
  assert (A : ask "TPER" w =
              (Returned (echo ++ "TPER" ++ str_int c),
               after_reading (after_writing w ["TPER"]))).
  { apply (ask_one_line "TPER" (echo ++ "TPER" ++ str_int c) p w later).
    - now apply no_CR_reply.
    - exact Hp.
    - rewrite Hin. now rewrite !append_assoc. }
  rewrite (getPositionError_after_ask _ _ _ A).
  destruct (str_int_split c) as [sgn [ds [E [Hs [Hne Hd]]]]].
  assert (S : re_search TPER_pattern (echo ++ "TPER" ++ str_int c) = Some (str_int c)).
  { rewrite E. rewrite <- (append_nil_r ds) at 1.
    change TPER_pattern with (token_pattern "TPER").
    apply (label_found "T" "PER"); (assumption || reflexivity). }
  rewrite S, int_of_str_str_int. reflexivity.
Qed.

Lemma getPositionError_reads_back_witness :
  getPositionError (replying ["TPER7" ++ terminator "?"]) =
  (Returned (Some 7),
   after_reading (after_writing (replying ["TPER7" ++ terminator "?"]) ["TPER"])).
Proof.
  apply (getPositionError_reads_back 7 "" "?" _ []).
  - reflexivity.
  - intros u sgn d v Hs Hd E. destruct u; discriminate E.
  - cbn. auto.
  - reflexivity.
Defined.

(** ** A reply to the other query *)

Lemma search_TPE_without_E (s : string) :
  forall before,
    String.prefix "E" before = false ->
    forallb_string (fun c => negb (Ascii.eqb "E" c)) s = true ->
    search_from TPE_pattern before s = None.
Proof.
  assert (P : forall before, String.prefix "E" before = false ->
                             String.prefix "EPT" before = false).
  { intros before H. destruct before as [|a before]; [reflexivity|].
    cbn [String.prefix] in *. destruct (ascii_dec "E" a); [|reflexivity].
    destruct before; discriminate H. }
  induction s as [|c s IH]; intros before Hb Hs; cbn [search_from];
    rewrite match_here_TPE, (P before Hb); [reflexivity|].
  cbn [forallb_string] in Hs. apply andb_prop in Hs. destruct Hs as [Hc Hs].
  apply IH; [|exact Hs].
  cbn [String.prefix]. destruct (ascii_dec "E" c) as [<-|]; [|reflexivity].
  discriminate Hc.
Qed.

Lemma decimal_without_E (s : string) :
  forallb_string is_decimal_char s = true ->
  forallb_string (fun c => negb (Ascii.eqb "E" c)) s = true.
Proof.
  induction s as [|c s IH]; cbn [forallb_string]; [reflexivity|].
  intros H. apply andb_prop in H. destruct H as [Hc Hs].
  rewrite (IH Hs), andb_true_r.
  destruct (Ascii.eqb_spec "E" c) as [<-|]; [|reflexivity].
  vm_compute in Hc. discriminate Hc.
Qed.

(** X4.  A reply to the position-error query never reads as a position:
    handed [TPER] followed by a count, [getPosition()] returns [None],
    not the count. *)
Theorem getPosition_ignores_TPER (c : Z) (echo p : string) (w : world)
    (later : list (list string)) :
  no_CR echo = true -> no_token echo -> In p prompts ->
  incoming w = [echo ++ "TPER" ++ str_int c ++ terminator p] :: later ->
  getPosition w = (Returned None, after_reading (after_writing w ["TPE"])).
Proof.
  intros He Hno Hp Hin.
  assert (A : ask "TPE" w =
              (Returned (echo ++ "TPER" ++ str_int c),
               after_reading (after_writing w ["TPE"]))).
  { apply (ask_one_line "TPE" (echo ++ "TPER" ++ str_int c) p w later).
    - now apply no_CR_reply.
    - exact Hp.
    - rewrite Hin. now rewrite !append_assoc. }
  rewrite (getPosition_after_ask _ _ _ A).
  assert (S : re_search TPE_pattern (echo ++ "TPER" ++ str_int c) = None).
  { unfold re_search.
    change ("TPER" ++ str_int c) with ("TPE" ++ String "R" (str_int c)).
    rewrite search_from_skip by (apply TPE_positions_before; exact Hno).
    cbn [append]. rewrite !search_from_letter by reflexivity.
    apply search_TPE_without_E; [reflexivity|].
    apply decimal_without_E, str_int_decimal. }
  now rewrite S.
Qed.

Lemma getPosition_ignores_TPER_witness :
  getPosition (replying ["TPER7" ++ terminator ">"]) =
  (Returned None,
   after_reading (after_writing (replying ["TPER7" ++ terminator ">"]) ["TPE"])).
Proof.
  apply (getPosition_ignores_TPER 7 "" ">" _ []).
  - reflexivity.
  - intros u sgn d v Hs Hd E. destruct u; discriminate E.
  - cbn. auto.
  - reflexivity.
Defined.

(** ** From a position to an angle and back *)

Lemma counts_within_In (n : nat) (c : Z) :
  - Z.of_nat n <= c <= Z.of_nat n -> In c (counts_within n).
Proof.
  intros H. unfold counts_within. apply in_map_iff.
  exists (Z.to_nat (c + Z.of_nat n)). split; [lia|].
  apply in_seq. lia.
Qed.

Lemma back_within_one_revolution :
  forallb back_within_one (counts_within 4000) = true.
Proof. vm_compute. reflexivity. Qed.

(** X5.  Within one revolution either way (4000 counts), the angle
    [getAngle()] reports for a count does not always lead [setAngle]
    back to that count: it sends the count itself or the one next to it
    toward zero, as [count_there_and_back] computes it.  On the reply
    [TPE4] the two calls send [D4]; on the reply [TPE5] they send [D4]
    again, not [D5]. *)
Theorem angle_there_and_back (c : Z) (p : string) (w : world)
    (later : list (list string)) :
  -4000 <= c <= 4000 -> In p prompts ->
  incoming w = ["TPE" ++ str_int c ++ terminator p] :: later ->
  let w1 := after_reading (after_writing w ["TPE"]) in
  let there_and_back :=
    (angle <- getAngle ;;
     match angle with
     | Some a => setAngle a
     | None => ret tt
     end) in
  (exists a c',
     getAngle w = (Returned (Some a), w1) /\
     setAngle a w1 = (Returned tt, after_writing w1 ["D" ++ str_int c']) /\
     there_and_back w = (Returned tt, after_writing w1 ["D" ++ str_int c']) /\
     count_there_and_back c = Some c' /\
     (c' = c \/ c' = c - Z.sgn c)) /\
  there_and_back (replying ["TPE4" ++ terminator ">"]) =
    (Returned tt,
     after_writing
       (after_reading (after_writing (replying ["TPE4" ++ terminator ">"]) ["TPE"]))
       ["D4"]) /\
  there_and_back (replying ["TPE5" ++ terminator ">"]) =
    (Returned tt,
     after_writing
       (after_reading (after_writing (replying ["TPE5" ++ terminator ">"]) ["TPE"]))
       ["D4"]).
Proof.
  intros Hc Hp Hin w1 there_and_back. split; [|split; vm_compute; reflexivity].
  assert (G : getPosition w = (Returned (Some c), w1)).
  { apply (getPosition_reads_back c "" p w later); auto.
    intros u sgn d v Hs Hd E. destruct u; discriminate E. }
  pose proof back_within_one_revolution as B.
  rewrite forallb_forall in B.
  specialize (B c (counts_within_In 4000 c ltac:(lia))).
  unfold back_within_one in B. unfold count_there_and_back in *.
  destruct (float_of_int c) as [x|e] eqn:F; [|discriminate B].
  destruct (int_of_float (x * degreesPerCount * pow_neg1 degreesPerCount)%float)
    as [c'|e] eqn:I; [|discriminate B].
  assert (A : getAngle w = (Returned (Some (x * degreesPerCount)%float), w1)).
  { unfold getAngle, bind. rewrite G. unfold lift. rewrite F. reflexivity. }
  assert (S : setAngle (x * degreesPerCount)%float w1 =
              (Returned tt, after_writing w1 ["D" ++ str_int c'])).
  { unfold setAngle, bind, lift. rewrite I. reflexivity. }
  exists (x * degreesPerCount)%float, c'. repeat split; auto.
  - unfold there_and_back, bind. rewrite A. exact S.
  - apply orb_prop in B. destruct B as [B|B]; apply Z.eqb_eq in B; auto.
Qed.

Lemma angle_there_and_back_witness :
  exists a c',
    getAngle (replying ["TPE5" ++ terminator ">"]) =
      (Returned (Some a),
       after_reading (after_writing (replying ["TPE5" ++ terminator ">"]) ["TPE"])) /\
    setAngle a (after_reading (after_writing (replying ["TPE5" ++ terminator ">"]) ["TPE"])) =
      (Returned tt,
       after_writing
         (after_reading (after_writing (replying ["TPE5" ++ terminator ">"]) ["TPE"]))
         ["D" ++ str_int c']) /\
    count_there_and_back 5 = Some c' /\
    (c' = 5 \/ c' = 5 - Z.sgn 5).
Proof.
  destruct (angle_there_and_back 5 ">" (replying ["TPE5" ++ terminator ">"]) [])
    as [[a [c' [H1 [H2 [_ [H3 H4]]]]]] _].
  - lia.
  - cbn. auto.
  - reflexivity.
  - exists a, c'. auto.
Defined.

(** ** Splitting and joining *)

Lemma split_from_skip (sep a b cur : string) :
  split_from sep cur (a ++ b) (String.length a) = split_from sep cur b 0.
Proof.
  induction a as [|c a IH]; [reflexivity|].
  cbn [append String.length split_from]. exact IH.
Qed.

Lemma split_from_nonempty (sep s : string) :
  forall cur skip, split_from sep cur s skip <> [].
Proof.
  induction s as [|c s IH]; intros cur skip; cbn [split_from]; [discriminate|].
  destruct skip; [|apply IH].
  destruct (String.prefix sep (String c s)); [discriminate | apply IH].
Qed.

Lemma concat_cons (sep a : string) (l : list string) :
  l <> [] -> String.concat sep (a :: l) = a ++ sep ++ String.concat sep l.
Proof. destruct l; [congruence | reflexivity]. Qed.

Lemma rev_string_cons (c : ascii) (s : string) :
  rev_string (String c s) = rev_string s ++ str1 c.
Proof. unfold rev_string at 1. cbn [rev_onto]. apply rev_onto_spec. Qed.

Lemma length_app (a b : string) :
  String.length (a ++ b) = (String.length a + String.length b)%nat.
Proof. induction a as [|c a IH]; cbn; [reflexivity | now rewrite IH]. Qed.

Lemma split_from_join (sep : string) (n : nat) :
  sep <> "" ->
  forall s cur, (String.length s <= n)%nat ->
    String.concat sep (split_from sep cur s 0) = rev_string cur ++ s.
Proof.
  intros Hsep. induction n as [|n IH]; intros s cur Hn.
  - destruct s; [|cbn in Hn; lia]. cbn. now rewrite append_nil_r.
  - destruct s as [|c s]; [cbn; now rewrite append_nil_r|].
    cbn [String.length] in Hn. cbn [split_from].
    destruct (String.prefix sep (String c s)) eqn:P.
    + apply prefix_inv in P. destruct P as [x P].
      destruct sep as [|c0 sep]; [congruence|].
      cbn [append] in P. injection P as <- ->.
      cbn [String.length]. rewrite Nat.sub_succ, Nat.sub_0_r, split_from_skip.
      rewrite concat_cons by apply split_from_nonempty.
      rewrite IH.
      * reflexivity.
      * rewrite length_app in Hn. lia.
    + rewrite IH by lia. rewrite rev_string_cons, append_assoc. reflexivity.
Qed.

Lemma split_from_whole (sep s : string) :
  forall cur,
    (forall u v, s = u ++ v -> String.prefix sep v = false) ->
    split_from sep cur s 0 = [rev_string cur ++ s].
Proof.
  induction s as [|c s IH]; intros cur H.
  - cbn. now rewrite append_nil_r.
  - cbn [split_from]. rewrite (H "" (String c s) eq_refl).
    rewrite IH.
    + now rewrite rev_string_cons, append_assoc.
    + intros u v E. apply (H (String c u) v). cbn [append]. now rewrite E.
Qed.

(** X6.  [status()] loses nothing of the reply: it returns at least one
    line, and the lines joined with [\r\n\n] are the reply as [read()]
    returned it; a reply that holds no [\r\n\n] comes back as a single
    line. *)
Theorem status_splits_reply (w : world) :
  exists reply parts w',
    ask "TASF" w = (Returned reply, w') /\
    status w = (Returned parts, w') /\
    parts <> [] /\
    String.concat blank_line parts = reply /\
    (~ holds blank_line reply -> parts = [reply]).
Proof.
  destruct (ask_returns "TASF" w) as [reply [w' H]].
  exists reply, (split blank_line reply), w'.
  split; [exact H|]. split; [|split; [|split]].
  - unfold status, bind. rewrite H. reflexivity.
  - apply split_from_nonempty.
  - unfold split.
    rewrite (split_from_join blank_line (String.length reply)); auto.
    discriminate.
  - intros Hno. unfold split. rewrite split_from_whole; [reflexivity|].
    intros u v E. destruct (String.prefix blank_line v) eqn:P; [|reflexivity].
    exfalso. apply Hno. apply prefix_inv in P. destruct P as [x ->].
    exists u, x. exact E.
Qed.

(** ** What an operation leaves alone *)

Ltac split_results :=
  repeat match goal with
    | |- context [match ?x with _ => _ end] =>
        lazymatch x with
        | context [match _ with _ => _ end] => fail
        | _ => destruct x
        end
    end.

(** X7.  No operation changes the settings of the connection.  The
    queries take exactly one reply from it and every other operation
    takes none; only [reset] sleeps, for five seconds. *)
Theorem operations_frame (float_digits : float -> string) (op : operation)
    (w : world) :
  let w' := snd (perform float_digits op w) in
  port w' = port w /\
  baudrate w' = baudrate w /\
  timeout w' = timeout w /\
  incoming w' = (if is_query op then tl (incoming w) else incoming w) /\
  slept w' = (match op with Reset => slept w + 5 | _ => slept w end).
Proof.
  destruct w as [p b t wr inc sl].
  destruct op; cbn [perform is_query];
    try (unfold reset;
         change (call float_digits "setDefault") with (@raise unit AttributeError));
    try rewrite setDefaults_spec;
    cbv [enable disable discard status isMoving getAngle getAngleError setAngle
         getPosition getPositionError int_of_match setPosition move stop kill
         setAbsolutePosition setRelativePosition setHardwareLimits
         setSoftwareLimits setEcho setAcceleration setAverageAcceleration
         setVelocity ask read write connection_write readlines sleep bind ret
         raise lift default after_writing];
    cbn [port baudrate timeout written incoming slept];
    split_results;
    cbn [snd tl port baudrate timeout written incoming slept]; repeat split.
Qed.

(** ** Arguments that are not numbers *)

Lemma int_of_float_not_finite (x : float) :
  finite_float x = false ->
  exists e, int_of_float x = Raised e /\ (e = ValueError \/ e = OverflowError).
Proof.
  unfold finite_float, int_of_float.
  destruct (Prim2SF x); try discriminate; eauto.
Qed.

Lemma int_of_float_finite (x : float) :
  finite_float x = true -> exists c, int_of_float x = Returned c.
Proof.
  unfold finite_float, int_of_float.
  destruct (Prim2SF x); try discriminate; eauto.
Qed.

(** X8.  [setSoftwareLimits] does not set the two limits together.  When
    the negative limit is an infinite or NaN float, [LSPOS<p>] has gone
    out by the time the call raises; when the positive limit is one,
    nothing is written. *)
Theorem setSoftwareLimits_half_done (p : Z) (x : float) (n : number) (w : world) :
  finite_float x = false ->
  exists e,
    (e = ValueError \/ e = OverflowError) /\
    setSoftwareLimits (PyInt p) (PyFloat x) w =
      (Raised e, after_writing w ["LSPOS" ++ str_int p]) /\
    setSoftwareLimits (PyFloat x) n w = (Raised e, w).
Proof.
  intros H. destruct (int_of_float_not_finite x H) as [e [E He]].
  exists e. split; [exact He|].
  unfold setSoftwareLimits, bind, lift. cbn [int_of_number].
  rewrite write_spec, E. auto.
Qed.

Lemma setSoftwareLimits_half_done_witness :
  exists e,
    (e = ValueError \/ e = OverflowError) /\
    setSoftwareLimits (PyInt 100) (PyFloat nan) silent =
      (Raised e, after_writing silent ["LSPOS" ++ str_int 100]) /\
    setSoftwareLimits (PyFloat nan) (PyInt (-50)) silent = (Raised e, silent).
Proof.
  apply (setSoftwareLimits_half_done 100 nan (PyInt (-50)) silent).
  vm_compute. reflexivity.
Defined.

(** X9.  [setPosition] and [setAngle] send exactly one [D] command with
    an integer, or raise and send nothing.  [setPosition] returns
    exactly when its argument is an int or a finite float and raises
    [ValueError] or [OverflowError] exactly when it is an infinite or
    NaN float; [setAngle] returns exactly when the product
    [angle * 0.00045**-1] is finite. *)
Theorem position_setters_all_or_nothing (n : number) (a : float) (w : world) :
  ((finite_number n = true /\
    exists c, int_of_number n = Returned c /\
              setPosition n w = (Returned tt, after_writing w ["D" ++ str_int c])) \/
   (finite_number n = false /\
    exists e, (e = ValueError \/ e = OverflowError) /\
              setPosition n w = (Raised e, w))) /\
  ((finite_float (a * pow_neg1 degreesPerCount)%float = true /\
    exists c, int_of_float (a * pow_neg1 degreesPerCount)%float = Returned c /\
              setAngle a w = (Returned tt, after_writing w ["D" ++ str_int c])) \/
   (finite_float (a * pow_neg1 degreesPerCount)%float = false /\
    exists e, (e = ValueError \/ e = OverflowError) /\
              setAngle a w = (Raised e, w))).
Proof.
  split.
  - destruct n as [z|x]; cbn [finite_number int_of_number].
    + left. split; [reflexivity|]. exists z. split; reflexivity.
    + destruct (finite_float x) eqn:F.
      * left. split; [reflexivity|].
        destruct (int_of_float_finite x F) as [c E]. exists c.
        split; [exact E|].
        unfold setPosition, bind, lift. cbn [int_of_number]. now rewrite E.
      * right. split; [reflexivity|].
        destruct (int_of_float_not_finite x F) as [e [E He]].
        exists e. split; [exact He|].
        unfold setPosition, bind, lift. cbn [int_of_number]. now rewrite E.
  - destruct (finite_float (a * pow_neg1 degreesPerCount)%float) eqn:F.
    + left. split; [reflexivity|].
      destruct (int_of_float_finite _ F) as [c E]. exists c.
      split; [exact E|]. unfold setAngle, bind, lift. now rewrite E.
    + right. split; [reflexivity|].
      destruct (int_of_float_not_finite _ F) as [e [E He]]. exists e.
      split; [exact He|]. unfold setAngle, bind, lift. now rewrite E.
Qed.

(** ** Whole numbers as float arguments *)

Lemma prints_whole_spec (float_digits : float -> string) (n : Z) :
  prints_whole n = true ->
  exists x, float_of_int n = Returned x /\
            str_float float_digits x = str_int n ++ ".0".
Proof.
  unfold prints_whole. destruct (float_of_int n) as [x|e]; [|discriminate].
  intros H. exists x. split; [reflexivity|]. unfold str_float.
  destruct (Prim2SF x) as [s|s| |s m e]; try discriminate H.
  - apply andb_prop in H. destruct H as [Hs Hn]. apply Z.eqb_eq in Hn. subst n.
    destruct s; [discriminate Hs | reflexivity].
  - apply andb_prop in H. destruct H as [H Hstr].
    rewrite H. apply String.eqb_eq in Hstr.
    rewrite <- Hstr. now rewrite append_assoc.
Qed.

Lemma prints_whole_revolution :
  forallb prints_whole (counts_within 4000) = true.
Proof. vm_compute. reflexivity. Qed.

(** X10.  Given an integer of at most 4000 in size, [setAcceleration],
    [setAverageAcceleration] and [setVelocity] send [A], [AA] and [V]
    followed by the numeral of the integer and [.0]. *)
Theorem float_setters_print_whole (float_digits : float -> string) (n : Z)
    (w : world) :
  -4000 <= n <= 4000 ->
  setAcceleration float_digits (PyInt n) w =
    (Returned tt, after_writing w ["A" ++ str_int n ++ ".0"]) /\
  setAverageAcceleration float_digits (PyInt n) w =
    (Returned tt, after_writing w ["AA" ++ str_int n ++ ".0"]) /\
  setVelocity float_digits (PyInt n) w =
    (Returned tt, after_writing w ["V" ++ str_int n ++ ".0"]).
Proof.
  intros Hn. pose proof prints_whole_revolution as B.
  rewrite forallb_forall in B.
  specialize (B n (counts_within_In 4000 n ltac:(lia))).
  destruct (prints_whole_spec float_digits n B) as [x [F S]].
  unfold setAcceleration, setAverageAcceleration, setVelocity, bind, lift.
  cbn [float_of_number]. rewrite F, S. repeat split.
Qed.

Lemma float_setters_print_whole_witness :
  setVelocity (fun _ => "0.5") (PyInt 3) silent =
  (Returned tt, after_writing silent ["V" ++ str_int 3 ++ ".0"]).
Proof.
  apply (float_setters_print_whole (fun _ => "0.5") 3 silent). lia.
Defined.

(** ** Queries on the same reply and in a row *)

(** X11.  On one and the same reply [getAngle()] has no value exactly
    when [isMoving()] says true; otherwise it returns the count
    [getPosition()] finds, converted to a float and multiplied by the
    factor, and raises [OverflowError] only for a count beyond the
    floats. *)
Theorem getAngle_follows_getPosition (w : world) :
  exists w',
    (getPosition w = (Returned None, w') /\
     isMoving w = (Returned true, w') /\
     getAngle w = (Returned None, w')) \/
    (exists z,
       getPosition w = (Returned (Some z), w') /\
       isMoving w = (Returned false, w') /\
       getAngle w =
       (match float_of_int z with
        | Returned x => Returned (Some (x * degreesPerCount)%float)
        | Raised _ => Raised OverflowError
        end, w')).
Proof.
  destruct (getPosition_returns w) as [r [w' H]]. exists w'.
  unfold isMoving, getAngle, bind. rewrite H. destruct r as [z|].
  - right. exists z. repeat split. unfold lift, float_of_int.
    now destruct (finite_float _).
  - left. auto.
Qed.

Lemma search_TPER_without_R (s : string) :
  forall before,
    String.prefix "R" before = false ->
    forallb_string (fun c => negb (Ascii.eqb "R" c)) s = true ->
    search_from TPER_pattern before s = None.
Proof.
  assert (P : forall before, String.prefix "R" before = false ->
                             String.prefix (rev_string "TPER") before = false).
  { intros before H. destruct before as [|a before]; [reflexivity|].
    change (rev_string "TPER") with "REPT".
    cbn [String.prefix] in *. destruct (ascii_dec "R" a); [|reflexivity].
    destruct before; discriminate H. }
  change TPER_pattern with (token_pattern "TPER").
  induction s as [|c s IH]; intros before Hb Hs; cbn [search_from];
    rewrite match_here_label, (P before Hb); [reflexivity|].
  cbn [forallb_string] in Hs. apply andb_prop in Hs. destruct Hs as [Hc Hs].
  apply IH; [|exact Hs].
  cbn [String.prefix]. destruct (ascii_dec "R" c) as [<-|]; [|reflexivity].
  discriminate Hc.
Qed.

Lemma decimal_without_R (s : string) :
  forallb_string is_decimal_char s = true ->
  forallb_string (fun c => negb (Ascii.eqb "R" c)) s = true.
Proof.
  induction s as [|c s IH]; cbn [forallb_string]; [reflexivity|].
  intros H. apply andb_prop in H. destruct H as [Hc Hs].
  rewrite (IH Hs), andb_true_r.
  destruct (Ascii.eqb_spec "R" c) as [<-|]; [|reflexivity].
  vm_compute in Hc. discriminate Hc.
Qed.

Lemma getPositionError_ignores_TPE (c : Z) (p : string) (w : world)
    (later : list (list string)) :
  In p prompts ->
  incoming w = ["TPE" ++ str_int c ++ terminator p] :: later ->
  getPositionError w = (Returned None, after_reading (after_writing w ["TPER"])).
Proof.
  intros Hp Hin.
  assert (A : ask "TPER" w =
              (Returned ("TPE" ++ str_int c),
               after_reading (after_writing w ["TPER"]))).
  { apply (ask_one_line "TPER" ("TPE" ++ str_int c) p w later).
    - apply (no_CR_reply "" "TPE" c); reflexivity.
    - exact Hp.
    - rewrite Hin. now rewrite !append_assoc. }
  rewrite (getPositionError_after_ask _ _ _ A).
  assert (S : re_search TPER_pattern ("TPE" ++ str_int c) = None).
  { unfold re_search. apply search_TPER_without_R; [reflexivity|].
    cbn [append forallb_string]. apply decimal_without_R, str_int_decimal. }
  now rewrite S.
Qed.

Lemma no_token_empty : no_token "".
Proof. intros u sgn d v Hs Hd E. destruct u; discriminate E. Qed.

Lemma no_token_after_empty (label : string) :
  label <> "" -> no_token_after label "".
Proof.
  intros Hl u sgn d v Hs Hd E. destruct u; [|discriminate E].
  destruct label; [congruence | discriminate E].
Qed.

(** X12.  A position query followed by a position-error query reads the
    two replies in the order they arrive.  When the replies arrive the
    other way round, neither query returns the other one's number: both
    report no value. *)
Theorem queries_in_a_row (c e : Z) (p q : string) (w : world)
    (later : list (list string)) :
  In p prompts -> In q prompts ->
  let both := (position <- getPosition ;;
               error <- getPositionError ;;
               ret (position, error)) in
  let w2 := after_reading (after_writing (after_reading (after_writing w ["TPE"]))
                                         ["TPER"]) in
  (incoming w = ["TPE" ++ str_int c ++ terminator p]
                :: ["TPER" ++ str_int e ++ terminator q] :: later ->
   both w = (Returned (Some c, Some e), w2)) /\
  (incoming w = ["TPER" ++ str_int e ++ terminator q]
                :: ["TPE" ++ str_int c ++ terminator p] :: later ->
   both w = (Returned (None, None), w2)).
Proof.
  intros Hp Hq both w2. split; intros Hin; unfold both, bind.
  - rewrite (getPosition_reads_back c "" p w _ eq_refl no_token_empty Hp Hin).
    rewrite (getPositionError_reads_back e "" q _ later eq_refl
               (no_token_after_empty "TPER" ltac:(discriminate)) Hq).
    + reflexivity.
    + cbn [after_reading after_writing incoming]. now rewrite Hin.
  - rewrite (getPosition_ignores_TPER e "" q w _ eq_refl no_token_empty Hq Hin).
    rewrite (getPositionError_ignores_TPE c p _ later Hp).
    + reflexivity.
    + cbn [after_reading after_writing incoming]. now rewrite Hin.
Qed.

Lemma queries_in_a_row_witness :
  (position <- getPosition ;;
   error <- getPositionError ;;
   ret (position, error))
    (SerialAdapter "COM1" 9600 0.5%float
       [["TPE" ++ str_int 4000 ++ terminator ">"];
        ["TPER" ++ str_int (-2) ++ terminator ">"]]) =
  (Returned (Some 4000, Some (-2)),
   after_reading
     (after_writing
        (after_reading
           (after_writing
              (SerialAdapter "COM1" 9600 0.5%float
                 [["TPE" ++ str_int 4000 ++ terminator ">"];
                  ["TPER" ++ str_int (-2) ++ terminator ">"]])
              ["TPE"]))
        ["TPER"])).
Proof.
  apply (queries_in_a_row 4000 (-2) ">" ">" _ []).
  - cbn. auto.
  - cbn. auto.
  - reflexivity.
Defined.
